(** * doc2md: a shallow embedding of [doc2md.py] and its properties

    The Python module converts a docstring to GitHub flavoured Markdown.
    Its functions are pure functions over text, so they are embedded as
    Rocq functions over [string] and [list string].

    Text.  A Python [str] is a sequence of code points.  The embedding
    uses the standard [string] type, whose characters are the 256 values
    of [ascii]; they stand for the code points U+0000 to U+00FF, and the
    character classes of the built-in methods ([str.strip],
    [str.splitlines], [str.lower]) are the ones CPython 3 uses on that
    range.  Integers ([len], indentation, heading depth) are Python's
    unbounded integers, embedded as [Z]. *)

From Stdlib Require Import ZArith List Bool Ascii String Lia.
Import ListNotations.

Local Open Scope string_scope.
Local Open Scope Z_scope.
Local Open Scope list_scope.

(** Python's [+] on strings; [++] is kept for lists. *)
Infix "+++" := String.append (right associativity, at level 60).

(** ** The built-in string methods the module calls *)

Module Py.

Definition TAB : ascii := "009"%char.
Definition LF : ascii := "010"%char.
Definition CR : ascii := "013"%char.
Definition SP : ascii := " "%char.

(** The one-character string holding a line feed, Python's ['\n']. *)
Definition nl : string := String LF EmptyString.

(** [ord(c)]. *)
Definition ord (c : ascii) : N := N_of_ascii c.

(** [str.isspace] on one character, as used by [strip], [lstrip] and
    [rstrip] without argument: U+0009..U+000D, U+001C..U+0020, U+0085
    and U+00A0. *)
Definition is_space (c : ascii) : bool :=
  let n := ord c in
  (((9 <=? n) && (n <=? 13)) || ((28 <=? n) && (n <=? 32))
   || (n =? 133) || (n =? 160))%N.

(** The line boundaries of [str.splitlines] below U+0100: LF, VT, FF, CR,
    FS, GS, RS and NEL. *)
Definition is_linebreak (c : ascii) : bool :=
  let n := ord c in
  (((10 <=? n) && (n <=? 13)) || ((28 <=? n) && (n <=? 30)) || (n =? 133))%N.

(** [len(s)]. *)
Definition len (s : string) : Z := Z.of_nat (String.length s).

(** Truth value of a string: [if s:] holds for a non-empty [s]. *)
Definition truthy (s : string) : bool :=
  match s with EmptyString => false | String _ _ => true end.

(** [s * n]: [n] copies of [s], none when [n <= 0]. *)
Fixpoint repeat_nat (s : string) (n : nat) : string :=
  match n with
  | O => EmptyString
  | S k => s +++ repeat_nat s k
  end.

Definition mul (s : string) (n : Z) : string := repeat_nat s (Z.to_nat n).

(** [s[n:]] for a natural number [n]. *)
Fixpoint drop (n : nat) (s : string) : string :=
  match n, s with
  | O, _ => s
  | S _, EmptyString => EmptyString
  | S k, String _ r => drop k r
  end.

(** [s[i:]] for [0 <= i]; every index the module slices with is a
    length difference or a literal, hence not negative. *)
Definition slice_from (i : Z) (s : string) : string := drop (Z.to_nat i) s.

(** [s.startswith(p)]. *)
Fixpoint startswith (p s : string) : bool :=
  match p, s with
  | EmptyString, _ => true
  | String _ _, EmptyString => false
  | String a p', String b s' => Ascii.eqb a b && startswith p' s'
  end.

(** [s.lstrip()]. *)
Fixpoint lstrip (s : string) : string :=
  match s with
  | EmptyString => EmptyString
  | String c r => if is_space c then lstrip r else s
  end.

(** [s.rstrip()]. *)
Fixpoint rstrip (s : string) : string :=
  match s with
  | EmptyString => EmptyString
  | String c r =>
      match rstrip r with
      | EmptyString => if is_space c then EmptyString else String c EmptyString
      | String _ _ as r' => String c r'
      end
  end.

(** [s.strip()]. *)
Definition strip (s : string) : string := rstrip (lstrip s).

(** [s.expandtabs()] with the default tab size 8.  The column restarts
    after a line feed or a carriage return. *)
Fixpoint expandtabs_at (col : nat) (s : string) : string :=
  match s with
  | EmptyString => EmptyString
  | String c r =>
      if Ascii.eqb c TAB then
        let incr := (8 - col mod 8)%nat in
        repeat_nat " " incr +++ expandtabs_at (col + incr) r
      else
        String c (expandtabs_at
                    (if Ascii.eqb c LF || Ascii.eqb c CR then O else S col) r)
  end.

Definition expandtabs (s : string) : string := expandtabs_at O s.

(** [s.splitlines()]: the lines of [s] without their line boundaries; a
    carriage return directly followed by a line feed is one boundary,
    and a final boundary opens no further line. *)
Fixpoint splitlines (s : string) : list string :=
  match s with
  | EmptyString => []
  | String c r =>
      if is_linebreak c then
        EmptyString ::
          match r with
          | String c' r' =>
              if Ascii.eqb c CR && Ascii.eqb c' LF then splitlines r'
              else splitlines r
          | EmptyString => []
          end
      else
        match splitlines r with
        | [] => [String c EmptyString]
        | l :: ls => String c l :: ls
        end
  end.

(** [s.split(sep)] for a one-character separator: always at least one
    field. *)
Fixpoint split (sep : ascii) (s : string) : list string :=
  match s with
  | EmptyString => [EmptyString]
  | String c r =>
      if Ascii.eqb c sep then EmptyString :: split sep r
      else
        match split sep r with
        | [] => [String c EmptyString]
        | l :: ls => String c l :: ls
        end
  end.

(** [sep.join(ls)]. *)
Definition join (sep : string) (ls : list string) : string :=
  String.concat sep ls.

(** [s.partition(sep)] for a one-character separator: the text before
    the first separator, the separator, the text after it; the whole
    text and two empty strings when there is none. *)
Fixpoint partition (sep : ascii) (s : string) : string * string * string :=
  match s with
  | EmptyString => (EmptyString, EmptyString, EmptyString)
  | String c r =>
      if Ascii.eqb c sep then (EmptyString, String sep EmptyString, r)
      else
        match partition sep r with
        | (before, found, after) => (String c before, found, after)
        end
  end.

(** [str.lower] on one character below U+0100: A..Z and the capital
    letters U+00C0..U+00DE (the multiplication sign U+00D7 apart). *)
Definition lower_char (c : ascii) : ascii :=
  let n := ord c in
  if (((65 <=? n) && (n <=? 90))
      || ((192 <=? n) && (n <=? 222) && negb (n =? 215)))%N
  then ascii_of_N (n + 32) else c.

(** [s.lower()]. *)
Fixpoint lower (s : string) : string :=
  match s with
  | EmptyString => EmptyString
  | String c r => String (lower_char c) (lower r)
  end.

(** [s.replace(old, new)] for a one-character [old]. *)
Fixpoint replace (old : ascii) (new : string) (s : string) : string :=
  match s with
  | EmptyString => EmptyString
  | String c r =>
      if Ascii.eqb c old then new +++ replace old new r
      else String c (replace old new r)
  end.

(** [s.endswith(suffix)]. *)
Definition endswith (suffix s : string) : bool :=
  (String.length suffix <=? String.length s)%nat
  && String.eqb (drop (String.length s - String.length suffix) s) suffix.

(** The last place [sep] occurs in [s]: the text before it and the text
    after it, or nothing when [sep] does not occur.  [sep] is not
    empty. *)
Fixpoint rpartition (sep s : string) : option (string * string) :=
  match s with
  | EmptyString => None
  | String c r =>
      match rpartition sep r with
      | Some (before, after) => Some (String c before, after)
      | None =>
          if startswith sep s
          then Some (EmptyString, drop (String.length sep) s)
          else None
      end
  end.

(** [s.rsplit(sep, 1)] for a separator that is not empty: a split at the
    last place [sep] occurs, or [s] alone. *)
Definition rsplit1 (sep s : string) : list string :=
  match rpartition sep s with
  | Some (before, after) => [before; after]
  | None => [s]
  end.

(** [sys.maxsize] of a 64-bit build. *)
Definition maxsize : Z := 2 ^ 63 - 1.

(** [min(xs)] of a non-empty sequence of integers.  On the empty
    sequence Python raises [ValueError]; both calls in the module are
    guarded by [if sections], and the value given here for it is never
    used. *)
Definition min_list (xs : list Z) : Z :=
  match xs with
  | [] => 0
  | x :: r => fold_left Z.min r x
  end.

End Py.

(** ** The functions of [doc2md.py] *)

Module Doc2md.
Import Py.

(** The loop of [doctrim] and [unindent] that finds the smallest
    indentation of the lines that hold something else than white space:
<<
    indent = sys.maxsize
    for line in lines:
        stripped = line.lstrip()
        if stripped:
            indent = min(indent, len(line) - len(stripped))
>>  *)
Definition indent_step (indent : Z) (line : string) : Z :=
  let stripped := lstrip line in
  if truthy stripped then Z.min indent (len line - len stripped) else indent.

Definition min_indent (lines : list string) : Z :=
  fold_left indent_step lines maxsize.

(** [while trimmed and not trimmed[-1]: trimmed.pop()] *)
Fixpoint pop_trailing (trimmed : list string) : list string :=
  match trimmed with
  | [] => []
  | x :: r =>
      match pop_trailing r with
      | [] => if truthy x then [x] else []
      | (_ :: _) as r' => x :: r'
      end
  end.

(** [while trimmed and not trimmed[0]: trimmed.pop(0)] *)
Fixpoint pop_leading (trimmed : list string) : list string :=
  match trimmed with
  | [] => []
  | x :: r => if truthy x then trimmed else pop_leading r
  end.

(** [doctrim(docstring)].  [None] is Python's [None].  [lines[0]] and
    [lines[1:]] are [hd] and [tl]: a non-empty text has at least one
    line (lemma [splitlines_expandtabs_nonempty]), so [lines[0]] never
    raises. *)
Definition doctrim (docstring : option string) : string :=
  match docstring with
  | None => EmptyString
  | Some EmptyString => EmptyString
  | Some (String _ _ as text) =>
      let lines := splitlines (expandtabs text) in
      let indent := min_indent (tl lines) in
      let trimmed :=
        [strip (hd EmptyString lines)]
        ++ (if indent <? maxsize
            then map (fun line => rstrip (slice_from indent line)) (tl lines)
            else [])
      in
      join nl (pop_leading (pop_trailing trimmed))
  end.

(** [unindent(lines)] *)
Definition unindent (lines : list string) : list string :=
  let indent := min_indent lines in
  if indent <? maxsize then map (slice_from indent) lines else [].

(** [code_block(lines, language)] *)
Definition code_block (lines : list string) (language : string)
  : list string :=
  ["```" +++ language] ++ lines ++ ["```"].

(** The test of the loop in [doctest2md]: the line is a prompt line. *)
Definition prompt_line (line : string) : bool :=
  negb (negb (startswith ">>> " line)
        && negb (startswith "... " line)
        && negb (existsb (String.eqb line) [">>>"; "..."])).

(** The loop of [doctest2md] that sets [is_only_code], with its [break]. *)
Fixpoint only_code (lines : list string) : bool :=
  match lines with
  | [] => true
  | line :: rest => if prompt_line line then only_code rest else false
  end.

(** [doctest2md(lines)] *)
Definition doctest2md (lines : list string) : list string :=
  let lines := unindent lines in
  if only_code lines then
    fold_left (fun acc line => acc ++ [slice_from 4 line]) lines []
  else lines.

(** [doc_code_block(lines, language)] *)
Definition doc_code_block (lines : list string) (language : string)
  : list string :=
  let lines := if String.eqb language "python" then doctest2md lines
               else lines in
  code_block lines language.

(** [reg_section.match(line)] for [reg_section = re.compile('^#+ ')]:
    the line starts with one or more [#], and a space follows them.
    [hashes] tells whether a [#] has been read already. *)
Fixpoint reg_section_from (hashes : bool) (line : string) : bool :=
  match line with
  | EmptyString => false
  | String c r =>
      if Ascii.eqb c "#" then reg_section_from true r
      else hashes && Ascii.eqb c SP
  end.

Definition reg_section_match (line : string) : bool :=
  reg_section_from false line.

(** [find_sections(lines)] *)
Definition find_sections (lines : list string) : list (Z * string) :=
  fold_left
    (fun sections line =>
       if reg_section_match line then
         match partition SP line with
         | (part0, _, part2) => sections ++ [(len part0, part2)]
         end
       else sections)
    lines [].

(** The anchor of a section title in [make_toc]. *)
Definition toc_ref (sec : string) : string :=
  let ref := lower sec in
  let ref := replace SP "-" ref in
  let ref := replace "?" EmptyString ref in
  ref.

(** [make_toc(sections)] *)
Definition make_toc (sections : list (Z * string)) : list string :=
  match sections with
  | [] => []
  | _ :: _ =>
      let outer := min_list (map fst sections) in
      fold_left
        (fun refs '(ind, sec) =>
           refs ++ [mul "    " (ind - outer)
                    +++ "- [" +++ sec +++ "](#" +++ toc_ref sec +++ ")"])
        sections []
  end.

(** The variables of the loop over the body lines in [doc2md].  [code]
    and [language] are unbound in Python until the first block starts;
    they are read only while [is_code] holds, that is after a block has
    bound them, so their initial values here are never used. *)
Record walk := Walk {
  md : list string;
  is_code : bool;
  code : list string;
  language : string
}.

(** One turn of the loop [for line in lines] of [doc2md]. *)
Definition walk_step (w : walk) (line : string) : walk :=
  let trimmed := lstrip line in
  if is_code w then
    if truthy line then
      Walk (md w) true (code w ++ [line]) (language w)
    else
      Walk (md w ++ doc_code_block (code w) (language w) ++ [line])
           false (code w) (language w)
  else if startswith ">>> " trimmed then
    Walk (md w) true [line] "python"
  else if startswith "$ " trimmed then
    Walk (md w) true [line] "bash"
  else
    Walk (md w ++ [line]) false (code w) (language w).

(** The statement after the loop: [if is_code: md += doc_code_block(...)]. *)
Definition walk_end (w : walk) : list string :=
  if is_code w then md w ++ doc_code_block (code w) (language w) else md w.

(** The loop and the statement after it, from the lines [md] holds
    before the loop. *)
Definition walk_body (md0 : list string) (lines : list string)
  : list string :=
  walk_end (fold_left walk_step lines (Walk md0 false [] EmptyString)).

(** The lines [doc2md] splits the trimmed docstring into. *)
Definition doc_lines (docstr : option string) : list string :=
  split LF (doctrim docstr).

(** The level of the sections found: the smallest depth, or 2. *)
Definition toc_level (sections : list (Z * string)) : Z :=
  match sections with
  | [] => 2
  | _ :: _ => min_list (map fst sections)
  end.

(** The list [md] of [doc2md(docstr, title)] before it is joined.
    [lines.pop(0)] is [hd] and leaves [tl]: [split] gives at least one
    line (lemma [split_nonempty]). *)
Definition doc2md_lines (docstr : option string) (title : string)
  : list string :=
  let lines := doc_lines docstr in
  let sections := find_sections lines in
  let level := toc_level sections in
  let md0 :=
    [mul "#" (Z.max (level - 1) 1) +++ " " +++ title;
     EmptyString;
     hd EmptyString lines;
     EmptyString] in
  let md1 := md0 ++ make_toc sections in
  walk_body md1 (tl lines).

(** [doc2md(docstr, title)] *)
Definition doc2md (docstr : option string) (title : string) : string :=
  join nl (doc2md_lines docstr title).

(** The title the script passes to [doc2md], from the value of the
    [--title] option ([None] when it is not given) and the module
    argument:
<<
    mod_name = args.module
    if mod_name.endswith('.py'):
        mod_name = mod_name.rsplit('.py', 1)[0]
    title = args.title or mod_name.replace('_', '-')
>>  *)
Definition main_title (title : option string) (module : string) : string :=
  let mod_name := module in
  let mod_name :=
    if endswith ".py" mod_name
    then hd EmptyString (rsplit1 ".py" mod_name)
    else mod_name in
  match title with
  | Some (String _ _ as given) => given
  | _ => replace "_" "-" mod_name
  end.

End Doc2md.

(** ** Notions the statements below are written with *)

Module Spec.
Import Py Doc2md.

(** The language of the block a body line starts, following the two
    [elif] tests of the loop of [doc2md]: none when the line starts no
    block. *)
Definition block_language (line : string) : option string :=
  if startswith ">>> " (lstrip line) then Some "python"
  else if startswith "$ " (lstrip line) then Some "bash"
  else None.

(** A line of a pure transcript: it starts with a prompt and a space, or
    it is a bare prompt. *)
Definition transcript_line (line : string) : Prop :=
  startswith ">>> " line = true \/ startswith "... " line = true
  \/ line = ">>>" \/ line = "...".

(** The headings [find_sections] records for one line. *)
Definition heading (line : string) : list (Z * string) :=
  if reg_section_match line then
    match partition SP line with
    | (part0, _, part2) => [(len part0, part2)]
    end
  else [].

(** The text [make_toc] puts into an anchor for one character of a
    title. *)
Definition anchor_char (c : ascii) : string :=
  let c' := lower_char c in
  if Ascii.eqb c' SP then "-"
  else if Ascii.eqb c' "?" then EmptyString
  else String c' EmptyString.

(** The texts [f] gives for the characters of [s], one after the other. *)
Fixpoint concat_map (f : ascii -> string) (s : string) : string :=
  match s with
  | EmptyString => EmptyString
  | String c r => f c +++ concat_map f r
  end.

(** The item [make_toc] writes for a heading when the smallest depth is
    [outer]. *)
Definition toc_item (outer : Z) (section : Z * string) : string :=
  mul "    " (fst section - outer)
  +++ "- [" +++ snd section +++ "](#" +++ toc_ref (snd section) +++ ")".

(** Every character of [s] passes the test [p]. *)
Fixpoint all_chars (p : ascii -> bool) (s : string) : bool :=
  match s with
  | EmptyString => true
  | String c r => p c && all_chars p r
  end.

Definition not_tab (c : ascii) : bool := negb (Ascii.eqb c TAB).

Definition not_linebreak (c : ascii) : bool := negb (is_linebreak c).

(** The first line of a text as [doctrim] reads it: [lines[0]]. *)
Definition first_line (text : string) : string :=
  hd EmptyString (splitlines (expandtabs text)).

(** The number [doctrim] and [unindent] take for the indentation of a
    line: [len(line) - len(line.lstrip())]. *)
Definition lead (line : string) : Z := len line - len (lstrip line).

(** The lines of a text [doctrim] leaves as it is.  There is none, or the
    first is not empty and has no white space at either end, no later
    line ends in white space, the last line is not empty, no line holds a
    tab or a line boundary, and, when there are later lines, one of them
    is not empty and starts at column 0. *)
Definition trimmed_form (ls : list string) : Prop :=
  match ls with
  | [] => True
  | t0 :: ts =>
      t0 <> EmptyString /\ strip t0 = t0
      /\ Forall (fun l => rstrip l = l) ts
      /\ Forall (fun l => all_chars not_tab l = true
                          /\ all_chars not_linebreak l = true) ls
      /\ pop_trailing ls = ls
      /\ (ts = [] \/ exists l, In l ts /\ l <> EmptyString /\ lstrip l = l)
  end.

(** The line [u] is the line [t] behind [n] spaces, or [t] is empty and
    [u] holds nothing but white space (and no tab or line boundary). *)
Definition indented (n : nat) (u t : string) : Prop :=
  u = repeat_nat " " n +++ t
  \/ (t = EmptyString /\ all_chars is_space u = true
      /\ all_chars not_tab u = true /\ all_chars not_linebreak u = true).

(** While a block is open, [code] holds the line that opened it followed
    by lines that are not empty, and [language] is the language of that
    first line. *)
Definition block_ok (w : walk) : Prop :=
  is_code w = true ->
  block_language (hd EmptyString (code w)) = Some (language w)
  /\ Forall (fun l => l <> EmptyString) (code w).

(** The docstring of the worked example: ["Title line\n\n>>> 1 + 1\n2\n"]. *)
Definition demo_doc : string :=
  "Title line" +++ nl +++ nl +++ ">>> 1 + 1" +++ nl +++ "2" +++ nl.

End Spec.

Import Py Doc2md Spec.

(** ** Lists built by appending in a loop *)

Section Loops.
Context {A B : Type}.

(** A loop that appends [f x] for each [x] builds [map f]. *)
Lemma fold_left_snoc_map (f : A -> B) (xs : list A) (acc : list B) :
  fold_left (fun acc x => acc ++ [f x]) xs acc = acc ++ map f xs.
Proof.
  revert acc; induction xs as [|x xs IH]; intros acc; simpl.
  - now rewrite app_nil_r.
  - rewrite IH, <- app_assoc. reflexivity.
Qed.

End Loops.

(** ** Code blocks *)

Section CodeBlocks.

Lemma truthy_iff (s : string) : truthy s = true <-> s <> EmptyString.
Proof. destruct s; simpl; split; congruence. Qed.

Lemma only_code_forallb (lines : list string) :
  only_code lines = forallb prompt_line lines.
Proof.
  induction lines as [|l ls IH]; simpl; [reflexivity|].
  destruct (prompt_line l); simpl; auto.
Qed.

Lemma prompt_line_iff (line : string) :
  prompt_line line = true <-> transcript_line line.
Proof.
  unfold prompt_line, transcript_line; simpl.
  rewrite negb_true_iff, !andb_false_iff, !negb_false_iff, !orb_true_iff.
  rewrite !String.eqb_eq. intuition congruence.
Qed.

Lemma doctest2md_eq (lines : list string) :
  doctest2md lines =
    if forallb prompt_line (unindent lines)
    then map (slice_from 4) (unindent lines) else unindent lines.
Proof.
  unfold doctest2md. rewrite only_code_forallb.
  destruct (forallb _ _); [|reflexivity].
  now rewrite fold_left_snoc_map.
Qed.

End CodeBlocks.

(** C4.  A python block is unindented as a group first.  When every
    unindented line starts with [>>> ] or [... ] or is a bare [>>>] or
    [...], the fence holds every line without its first four characters;
    when some line is none of these, the fence holds the unindented lines
    as they are, prompts included. *)
Theorem python_block_formatting (lines : list string) :
  let u := unindent lines in
  ((forall l, In l u -> transcript_line l) ->
   doc_code_block lines "python"
   = ["```python"] ++ map (slice_from 4) u ++ ["```"])
  /\ ((exists l, In l u /\ ~ transcript_line l) ->
      doc_code_block lines "python" = ["```python"] ++ u ++ ["```"]).
Proof.
  intros u. unfold doc_code_block, code_block. simpl String.eqb. cbv iota.
  rewrite doctest2md_eq. fold u. split.
  - intros H.
    assert (E : forallb prompt_line u = true).
    { apply forallb_forall. intros l Hl. now apply prompt_line_iff, H. }
    now rewrite E.
  - intros (l & Hl & Hn).
    assert (E : forallb prompt_line u = false).
    { apply not_true_is_false. intros E. apply Hn, prompt_line_iff.
      now apply (proj1 (forallb_forall _ _) E). }
    now rewrite E.
Qed.

Lemma python_block_formatting_witness :
  doc_code_block ["  >>> x = 1"; "  ... + 2"; "  >>>"] "python"
  = ["```python"; "x = 1"; "+ 2"; EmptyString; "```"]
  /\ doc_code_block [">>> x"; "not-a-prompt-line"] "python"
     = ["```python"; ">>> x"; "not-a-prompt-line"; "```"].
Proof.
  split.
  - apply (proj1 (python_block_formatting ["  >>> x = 1"; "  ... + 2"; "  >>>"])).
    intros l Hl. vm_compute in Hl. unfold transcript_line.
    destruct Hl as [<-|[<-|[<-|[]]]]; vm_compute; auto.
  - apply (proj2 (python_block_formatting [">>> x"; "not-a-prompt-line"])).
    exists "not-a-prompt-line". split; [vm_compute; auto|].
    unfold transcript_line. vm_compute. intuition discriminate.
Defined.

(** ** The loop over the body lines *)

Section Walk.

Lemma startswith_shell_not_python (t : string) :
  startswith "$ " t = true -> startswith ">>> " t = false.
Proof.
  destruct t as [|c t]; cbn [startswith]; [discriminate|].
  destruct (Ascii.eqb_spec "$" c) as [<-|]; [reflexivity|discriminate].
Qed.

Lemma block_language_bash (line : string) :
  startswith "$ " (lstrip line) = true -> block_language line = Some "bash".
Proof.
  intros H. unfold block_language.
  now rewrite (startswith_shell_not_python _ H), H.
Qed.

Lemma walk_step_start (w : walk) (line lang : string) :
  is_code w = false -> block_language line = Some lang ->
  walk_step w line = Walk (md w) true [line] lang.
Proof.
  unfold walk_step, block_language. intros ->.
  destruct (startswith ">>> " _); [congruence|].
  destruct (startswith "$ " _); congruence.
Qed.

Lemma walk_step_plain (w : walk) (line : string) :
  is_code w = false -> block_language line = None ->
  walk_step w line = Walk (md w ++ [line]) false (code w) (language w).
Proof.
  unfold walk_step, block_language. intros ->.
  destruct (startswith ">>> " _); [discriminate|].
  destruct (startswith "$ " _); [discriminate|reflexivity].
Qed.

(** Inside a block every line that is not empty joins the block. *)
Lemma walk_in_block (blk : list string) :
  Forall (fun l => l <> EmptyString) blk ->
  forall m c lg,
    fold_left walk_step blk (Walk m true c lg) = Walk m true (c ++ blk) lg.
Proof.
  induction 1 as [|l blk Hl _ IH]; intros m c lg; simpl.
  - now rewrite app_nil_r.
  - unfold walk_step at 2; simpl.
    apply truthy_iff in Hl. rewrite Hl, IH, <- app_assoc. reflexivity.
Qed.

(** The loop from a line that starts a block up to the empty line that
    ends it. *)
Lemma walk_block (w : walk) (l0 lang : string) (blk rest : list string) :
  is_code w = false -> block_language l0 = Some lang ->
  Forall (fun l => l <> EmptyString) blk ->
  fold_left walk_step (l0 :: blk ++ EmptyString :: rest) w
  = fold_left walk_step rest
      (Walk (md w ++ doc_code_block (l0 :: blk) lang ++ [EmptyString])
            false (l0 :: blk) lang).
Proof.
  intros Hw Hl0 Hblk. simpl. rewrite (walk_step_start _ _ _ Hw Hl0).
  rewrite fold_left_app, (walk_in_block _ Hblk). reflexivity.
Qed.

(** Outside a block the loop does not read [code] and [language]. *)
Lemma walk_stale (lines : list string) :
  forall m c lg,
    walk_end (fold_left walk_step lines (Walk m false c lg))
    = walk_body m lines.
Proof.
  unfold walk_body.
  induction lines as [|l ls IH]; intros m c lg; [reflexivity|].
  simpl. destruct (block_language l) as [lang|] eqn:E.
  - now rewrite (walk_step_start (Walk m false c lg) _ lang eq_refl E),
      (walk_step_start (Walk m false [] EmptyString) _ lang eq_refl E).
  - rewrite (walk_step_plain (Walk m false c lg) _ eq_refl E),
      (walk_step_plain (Walk m false [] EmptyString) _ eq_refl E). simpl.
    rewrite IH. symmetry. apply IH.
Qed.

Lemma walk_body_block (md0 : list string) (l0 lang : string)
      (blk rest : list string) :
  block_language l0 = Some lang ->
  Forall (fun l => l <> EmptyString) blk ->
  walk_body md0 (l0 :: blk ++ EmptyString :: rest)
  = walk_body (md0 ++ doc_code_block (l0 :: blk) lang ++ [EmptyString]) rest.
Proof.
  intros Hl0 Hblk. unfold walk_body at 1.
  rewrite (walk_block (Walk md0 false [] EmptyString) _ _ _ _
             eq_refl Hl0 Hblk).
  apply walk_stale.
Qed.

Lemma walk_body_open_block (md0 : list string) (l0 lang : string)
      (blk : list string) :
  block_language l0 = Some lang ->
  Forall (fun l => l <> EmptyString) blk ->
  walk_body md0 (l0 :: blk) = md0 ++ doc_code_block (l0 :: blk) lang.
Proof.
  intros Hl0 Hblk. unfold walk_body. simpl.
  rewrite (walk_step_start (Walk md0 false [] EmptyString) _ _
             eq_refl Hl0), (walk_in_block _ Hblk).
  reflexivity.
Qed.

Lemma walk_body_plain (md0 : list string) (line : string)
      (rest : list string) :
  block_language line = None ->
  walk_body md0 (line :: rest) = walk_body (md0 ++ [line]) rest.
Proof.
  intros E. unfold walk_body at 1. simpl.
  rewrite (walk_step_plain (Walk md0 false [] EmptyString) _ eq_refl E).
  apply walk_stale.
Qed.

End Walk.

(** C3.  A block opened by a line [l0] takes every following line that is
    not of length zero, whatever it holds.  The first empty line ends it:
    the output gets the fenced block, then that empty line, and the loop
    goes on with the lines after it.  When the lines run out first, the
    fenced block is the end of the output, and no line follows it. *)
Theorem block_extent (md0 : list string) (l0 lang : string)
        (blk rest : list string) :
  block_language l0 = Some lang ->
  Forall (fun l => l <> EmptyString) blk ->
  walk_body md0 (l0 :: blk ++ EmptyString :: rest)
  = walk_body (md0 ++ doc_code_block (l0 :: blk) lang ++ [EmptyString]) rest
  /\ walk_body md0 (l0 :: blk) = md0 ++ doc_code_block (l0 :: blk) lang.
Proof.
  intros Hl0 Hblk. split.
  - now apply walk_body_block.
  - now apply walk_body_open_block.
Qed.

Lemma block_extent_witness :
  walk_body ["intro"] ["$ ls"; "   "; "# x"; EmptyString; "after"]
  = walk_body (["intro"] ++ doc_code_block ["$ ls"; "   "; "# x"] "bash"
               ++ [EmptyString]) ["after"]
  /\ walk_body ["intro"] ["$ ls"; "   "; "# x"]
     = ["intro"] ++ doc_code_block ["$ ls"; "   "; "# x"] "bash".
Proof.
  apply (block_extent ["intro"] "$ ls" "bash" ["   "; "# x"] ["after"]).
  - reflexivity.
  - repeat constructor; discriminate.
Defined.

(** C2, as the code has it.  A bash block is fenced with its lines as they
    were read: [doc_code_block] unindents python blocks only, so a bash
    block keeps both its indentation and its prompts.  The first two parts
    are the loop of [doc2md] around a block opened by a [$ ] line, the
    third is the formatter alone. *)
Theorem bash_block_verbatim (md0 : list string) (l0 : string)
        (blk rest : list string) :
  startswith "$ " (lstrip l0) = true ->
  Forall (fun l => l <> EmptyString) blk ->
  walk_body md0 (l0 :: blk ++ EmptyString :: rest)
  = walk_body (md0 ++ ["```bash"] ++ (l0 :: blk) ++ ["```"; EmptyString]) rest
  /\ walk_body md0 (l0 :: blk) = md0 ++ ["```bash"] ++ (l0 :: blk) ++ ["```"]
  /\ forall lines, doc_code_block lines "bash" = ["```bash"] ++ lines ++ ["```"].
Proof.
  intros Hl0 Hblk. apply block_language_bash in Hl0. split; [|split].
  - rewrite (walk_body_block _ _ _ _ _ Hl0 Hblk). f_equal.
    unfold doc_code_block, code_block; simpl. now rewrite <- app_assoc.
  - now rewrite (walk_body_open_block _ _ _ _ Hl0 Hblk).
  - reflexivity.
Qed.

Lemma bash_block_verbatim_witness :
  walk_body ["text"] ["  $ ls"; "  file.txt"; EmptyString; "more"]
  = walk_body (["text"] ++ ["```bash"] ++ ["  $ ls"; "  file.txt"]
               ++ ["```"; EmptyString]) ["more"]
  /\ walk_body ["text"] ["  $ ls"; "  file.txt"]
     = ["text"] ++ ["```bash"] ++ ["  $ ls"; "  file.txt"] ++ ["```"]
  /\ forall lines, doc_code_block lines "bash" = ["```bash"] ++ lines ++ ["```"].
Proof.
  apply (bash_block_verbatim ["text"] "  $ ls" ["  file.txt"] ["more"]).
  - reflexivity.
  - repeat constructor; discriminate.
Defined.

(** C2 as stated fails: the docstring ["Title\ntext\n  $ ls\n  file.txt"]
    has a bash block whose lines share an indentation of two, and the
    fence holds them with it, not the unindented lines. *)
Lemma bash_block_not_unindented :
  let doc := "Title" +++ nl +++ "text" +++ nl +++ "  $ ls" +++ nl
             +++ "  file.txt" in
  doc2md_lines (Some doc) "t"
  = ["# t"; EmptyString; "Title"; EmptyString; "text";
     "```bash"; "  $ ls"; "  file.txt"; "```"]
  /\ unindent ["  $ ls"; "  file.txt"] = ["$ ls"; "file.txt"]
  /\ doc_code_block ["  $ ls"; "  file.txt"] "bash"
     <> code_block (unindent ["  $ ls"; "  file.txt"]) "bash".
Proof.
  split; [|split]; [vm_compute; reflexivity ..|].
  vm_compute. discriminate.
Qed.

(** C9, as the code has it.  [code_block] puts the lines between an
    opening fence, three backquotes and the language, and a closing fence
    of three backquotes: two lines more than the block had. *)
Theorem code_block_two_fences (lines : list string) (lang : string) :
  code_block lines lang = ("```" +++ lang) :: lines ++ ["```"]
  /\ List.length (code_block lines lang) = (List.length lines + 2)%nat.
Proof.
  split; [reflexivity|].
  unfold code_block. rewrite !length_app. simpl. lia.
Qed.

(** C9 as stated fails: a block of one line is formatted to three lines,
    not to four. *)
Lemma code_block_overhead_not_three :
  List.length (code_block ["$ ls"] "bash") = 3%nat
  /\ List.length (code_block ["$ ls"] "bash")
     <> (List.length ["$ ls"] + 3)%nat.
Proof. split; [reflexivity|]. simpl. discriminate. Qed.

(** C1, as the code has it.  For the docstring
    ["Title line\n\n>>> 1 + 1\n2\n"] and the title ["demo"] the document
    starts with the heading [# demo]; the line [2] follows the prompt line
    with no empty line between, so it belongs to the block, the block is
    no pure transcript, and the python fence holds both lines unchanged,
    prompt included.  Nothing follows the closing fence. *)
Theorem demo_document :
  doc2md_lines (Some demo_doc) "demo"
  = ["# demo"; EmptyString; "Title line"; EmptyString; EmptyString;
     "```python"; ">>> 1 + 1"; "2"; "```"]
  /\ doc2md (Some demo_doc) "demo"
     = "# demo" +++ nl +++ nl +++ "Title line" +++ nl +++ nl +++ nl
       +++ "```python" +++ nl +++ ">>> 1 + 1" +++ nl +++ "2" +++ nl +++ "```".
Proof. split; vm_compute; reflexivity. Qed.

(** C1 as stated fails: the document has no fenced python block that
    holds the single line [1 + 1], and no line [2] after a closing
    fence. *)
Lemma demo_document_counterexample :
  ~ (exists pre post,
        doc2md_lines (Some demo_doc) "demo"
        = pre ++ ["```python"; "1 + 1"; "```"] ++ post)
  /\ ~ (exists pre post,
           doc2md_lines (Some demo_doc) "demo" = pre ++ ["```"] ++ post
           /\ In "2" post).
Proof.
  assert (E : doc2md_lines (Some demo_doc) "demo"
              = ["# demo"; EmptyString; "Title line"; EmptyString;
                 EmptyString; "```python"; ">>> 1 + 1"; "2"; "```"])
    by (vm_compute; reflexivity).
  rewrite E. split.
  - intros (pre & post & H).
    assert (Hin : In "1 + 1" (pre ++ ["```python"; "1 + 1"; "```"] ++ post))
      by (apply in_or_app; right; simpl; auto).
    rewrite <- H in Hin. simpl in Hin.
    repeat (destruct Hin as [Hin|Hin]; [discriminate Hin|]). exact Hin.
  - intros (pre & post & H & Hin).
    do 9 (destruct pre as [|? pre]; [simpl in H; inversion H; subst;
          simpl in Hin; intuition discriminate|]; simpl in H;
          apply (f_equal (@tl string)) in H; simpl in H).
    destruct pre; discriminate H.
Qed.

(** ** Strings: concatenation, length, repetition *)

Section Strings.

Lemma append_nil_r (s : string) : s +++ EmptyString = s.
Proof. induction s; simpl; congruence. Qed.

Lemma append_assoc (a b c : string) : (a +++ b) +++ c = a +++ b +++ c.
Proof. induction a; simpl; congruence. Qed.

Lemma length_append (a b : string) :
  String.length (a +++ b) = (String.length a + String.length b)%nat.
Proof. induction a; simpl; congruence. Qed.

Lemma len_append (a b : string) : len (a +++ b) = len a + len b.
Proof. unfold len. rewrite length_append. lia. Qed.

Lemma len_hashes (n : nat) : len (repeat_nat "#" n) = Z.of_nat n.
Proof.
  induction n; [reflexivity|].
  cbn [repeat_nat]. rewrite len_append, IHn. change (len "#") with 1. lia.
Qed.

Lemma startswith_iff (p s : string) :
  startswith p s = true <-> exists r, s = p +++ r.
Proof.
  revert s; induction p as [|a p IH]; intros s; cbn [startswith].
  - split; [intros _; now exists s|reflexivity].
  - destruct s as [|b s].
    + split; [discriminate|]. intros (r & H). discriminate H.
    + rewrite andb_true_iff, Ascii.eqb_eq, IH. split.
      * intros (-> & r & ->). now exists r.
      * intros (r & H). injection H as -> ->. eauto.
Qed.

End Strings.

(** ** The section scanner *)

Section Sections.

(** The scanner reads the lines one by one, in order. *)
Lemma find_sections_flat_map (lines : list string) :
  find_sections lines = flat_map heading lines.
Proof.
  unfold find_sections.
  enough (G : forall acc,
             fold_left
               (fun sections line =>
                  if reg_section_match line then
                    match partition SP line with
                    | (part0, _, part2) => sections ++ [(len part0, part2)]
                    end
                  else sections) lines acc
             = acc ++ flat_map heading lines) by apply (G []).
  induction lines as [|l ls IH]; intros acc; simpl.
  - now rewrite app_nil_r.
  - rewrite IH. unfold heading at 2.
    destruct (reg_section_match l); [|reflexivity].
    destruct (partition SP l) as [[p0 p1] p2].
    now rewrite <- app_assoc.
Qed.

Lemma find_sections_app (xs ys : list string) :
  find_sections (xs ++ ys) = find_sections xs ++ find_sections ys.
Proof. rewrite !find_sections_flat_map. apply flat_map_app. Qed.

(** What the regular expression accepts. *)
Lemma reg_section_from_iff (line : string) (hashes : bool) :
  reg_section_from hashes line = true
  <-> exists n rest,
      (hashes = true \/ (1 <= n)%nat)
      /\ line = repeat_nat "#" n +++ " " +++ rest.
Proof.
  revert hashes; induction line as [|c r IH]; intros hashes;
    cbn [reg_section_from].
  - split; [discriminate|]. intros ([|n] & rest & _ & H); discriminate H.
  - destruct (Ascii.eqb_spec c "#") as [->|Hc].
    + rewrite IH. split.
      * intros (n & rest & _ & ->). exists (S n), rest. split; [right; lia|].
        reflexivity.
      * intros ([|n] & rest & Hn & H); [discriminate H|].
        injection H as ->. exists n, rest. auto.
    + rewrite andb_true_iff, Ascii.eqb_eq. split.
      * intros (-> & ->). exists O, r. auto.
      * intros ([|n] & rest & Hn & H).
        -- injection H as -> ->. destruct Hn as [Hn|Hn]; [auto|lia].
        -- injection H as -> _. now destruct Hc.
Qed.

Lemma reg_section_match_iff (line : string) :
  reg_section_match line = true
  <-> exists n rest,
      (1 <= n)%nat /\ line = repeat_nat "#" n +++ " " +++ rest.
Proof.
  unfold reg_section_match. rewrite reg_section_from_iff.
  split; intros (n & rest & H & E); exists n, rest; split; auto.
  destruct H as [H|H]; [discriminate H|exact H].
Qed.

(** [partition(' ')] cuts a heading line after its marks. *)
Lemma partition_heading (n : nat) (rest : string) :
  partition SP (repeat_nat "#" n +++ " " +++ rest)
  = (repeat_nat "#" n, " ", rest).
Proof.
  induction n as [|n IH]; [reflexivity|].
  cbn [repeat_nat]. rewrite append_assoc.
  change ("#" +++ ?x) with (String "#" x).
  cbn [partition]. change (Ascii.eqb "#" SP) with false. cbv iota.
  now rewrite IH.
Qed.

Lemma heading_of_line (n : nat) (rest : string) :
  (1 <= n)%nat ->
  heading (repeat_nat "#" n +++ " " +++ rest) = [(Z.of_nat n, rest)].
Proof.
  intros Hn. unfold heading.
  rewrite (proj2 (reg_section_match_iff _)) by eauto.
  now rewrite partition_heading, len_hashes.
Qed.

(** The headings found are those of the lines of heading form. *)
Lemma find_sections_In (lines : list string) (d : Z) (t : string) :
  In (d, t) (find_sections lines)
  <-> exists n,
      (1 <= n)%nat /\ d = Z.of_nat n
      /\ In (repeat_nat "#" n +++ " " +++ t) lines.
Proof.
  rewrite find_sections_flat_map, in_flat_map. split.
  - intros (line & Hin & H). unfold heading in H.
    destruct (reg_section_match line) eqn:E; [|destruct H].
    apply reg_section_match_iff in E as (n & rest & Hn & ->).
    rewrite partition_heading, len_hashes in H.
    destruct H as [H|[]]. injection H as <- <-. eauto.
  - intros (n & Hn & -> & Hin). eexists; split; [exact Hin|].
    rewrite heading_of_line by exact Hn. now left.
Qed.

Lemma find_sections_single (line : string) :
  find_sections [line] = heading line.
Proof. rewrite find_sections_flat_map. simpl. apply app_nil_r. Qed.

Lemma find_sections_heading (n : nat) (rest : string) :
  (1 <= n)%nat ->
  find_sections [repeat_nat "#" n +++ " " +++ rest] = [(Z.of_nat n, rest)].
Proof. intros Hn. now rewrite find_sections_single, heading_of_line. Qed.

Lemma find_sections_other (line : string) :
  reg_section_match line = false -> find_sections [line] = [].
Proof. intros H. rewrite find_sections_single. unfold heading. now rewrite H. Qed.

End Sections.

(** C7.  A line is a heading exactly when it starts with one or more [#]
    directly followed by a space.  Its depth is the number of [#], its
    title all that follows that space, unchanged.  So [## Foo] is the
    heading (2, Foo), and [###Foo] is none. *)
Theorem heading_lines :
  (forall line,
      reg_section_match line = true
      <-> exists n rest,
          (1 <= n)%nat /\ line = repeat_nat "#" n +++ " " +++ rest)
  /\ (forall n rest,
         (1 <= n)%nat ->
         find_sections [repeat_nat "#" n +++ " " +++ rest]
         = [(Z.of_nat n, rest)])
  /\ (forall line, reg_section_match line = false -> find_sections [line] = [])
  /\ (forall lines d t,
         In (d, t) (find_sections lines)
         <-> exists n,
             (1 <= n)%nat /\ d = Z.of_nat n
             /\ In (repeat_nat "#" n +++ " " +++ t) lines)
  /\ find_sections ["## Foo"] = [(2, "Foo")]
  /\ find_sections ["###Foo"] = [].
Proof.
  split; [exact reg_section_match_iff|].
  split; [exact find_sections_heading|].
  split; [exact find_sections_other|].
  split; [exact find_sections_In|].
  split; reflexivity.
Qed.

Lemma heading_lines_witness :
  find_sections [repeat_nat "#" 3 +++ " " +++ " Deep  title "]
  = [(Z.of_nat 3, " Deep  title ")].
Proof.
  apply (proj1 (proj2 heading_lines) 3%nat " Deep  title "). lia.
Defined.

(** ** The table of contents *)

Section Toc.

Lemma fold_min_le (xs : list Z) (x : Z) : fold_left Z.min xs x <= x.
Proof.
  revert x; induction xs as [|y ys IH]; intros x; simpl; [lia|].
  specialize (IH (Z.min x y)). lia.
Qed.

Lemma fold_min_lower (xs : list Z) (x d : Z) :
  In d xs -> fold_left Z.min xs x <= d.
Proof.
  revert x; induction xs as [|y ys IH]; intros x; simpl; [tauto|].
  intros [<-|H]; [|now apply IH].
  pose proof (fold_min_le ys (Z.min x y)). lia.
Qed.

Lemma fold_min_In (xs : list Z) (x : Z) :
  fold_left Z.min xs x = x \/ In (fold_left Z.min xs x) xs.
Proof.
  revert x; induction xs as [|y ys IH]; intros x; simpl; [auto|].
  destruct (IH (Z.min x y)) as [E|H]; [|auto].
  rewrite E. destruct (Z.min_spec x y) as [[_ ->]|[_ ->]]; auto.
Qed.

(** [min] gives an element of the sequence that is below every other. *)
Lemma min_list_spec (xs : list Z) :
  xs <> [] ->
  In (min_list xs) xs /\ forall d, In d xs -> min_list xs <= d.
Proof.
  destruct xs as [|x xs]; [congruence|]. intros _. simpl min_list. split.
  - destruct (fold_min_In xs x) as [->|H]; simpl; auto.
  - intros d [<-|H]; [apply fold_min_le|now apply fold_min_lower].
Qed.

Lemma make_toc_map (sections : list (Z * string)) :
  make_toc sections = map (toc_item (min_list (map fst sections))) sections.
Proof.
  destruct sections as [|s0 ss]; [reflexivity|].
  unfold make_toc. generalize (min_list (map fst (s0 :: ss))) as outer.
  intros outer. generalize (s0 :: ss) as secs.
  enough (G : forall secs acc,
             fold_left
               (fun refs '(ind, sec) =>
                  refs ++ [mul "    " (ind - outer)
                           +++ "- [" +++ sec +++ "](#" +++ toc_ref sec +++ ")"])
               secs acc
             = acc ++ map (toc_item outer) secs) by (intros secs; apply (G secs [])).
  induction secs as [|[ind sec] secs IH]; intros acc; simpl.
  - now rewrite app_nil_r.
  - rewrite IH, <- app_assoc. reflexivity.
Qed.

Lemma toc_ref_chars (title : string) :
  toc_ref title = concat_map anchor_char title.
Proof.
  unfold toc_ref. induction title as [|c r IH]; [reflexivity|].
  cbn [lower replace concat_map]. unfold anchor_char at 1.
  destruct (Ascii.eqb (lower_char c) SP) eqn:E1.
  - simpl. now rewrite IH.
  - cbn [replace]. destruct (Ascii.eqb (lower_char c) "?") eqn:E2.
    + simpl. now rewrite IH.
    + simpl. now rewrite IH.
Qed.

End Toc.

(** C8.  For a list of headings that is not empty, [make_toc] gives one
    item per heading, in the order of the headings.  With [outer] the
    smallest depth of the list, the item of a heading is four spaces
    repeated depth - [outer] times, then [- [title](#anchor)].  The anchor
    is the title in lower case with every space turned into a hyphen and
    every question mark left out, character by character and nothing
    else; the title [How it Works?] has the anchor [how-it-works]. *)
Theorem toc_items (sections : list (Z * string)) :
  sections <> [] ->
  exists outer,
    In outer (map fst sections)
    /\ (forall d, In d (map fst sections) -> outer <= d)
    /\ make_toc sections
       = map (fun s => mul "    " (fst s - outer)
                       +++ "- [" +++ snd s +++ "](#" +++ toc_ref (snd s)
                       +++ ")") sections
    /\ List.length (make_toc sections) = List.length sections
    /\ (forall title, toc_ref title = concat_map anchor_char title)
    /\ toc_ref "How it Works?" = "how-it-works".
Proof.
  intros Hne. exists (min_list (map fst sections)).
  assert (Hm : map fst sections <> []) by (destruct sections; simpl; congruence).
  destruct (min_list_spec _ Hm) as [Hin Hle].
  repeat split; auto.
  - apply make_toc_map.
  - rewrite make_toc_map. apply length_map.
  - apply toc_ref_chars.
Qed.

Lemma toc_items_witness :
  exists outer,
    In outer (map fst [(3, "How it Works?"); (2, "API"); (3, "Use")])
    /\ (forall d, In d (map fst [(3, "How it Works?"); (2, "API"); (3, "Use")])
                  -> outer <= d)
    /\ make_toc [(3, "How it Works?"); (2, "API"); (3, "Use")]
       = map (fun s => mul "    " (fst s - outer)
                       +++ "- [" +++ snd s +++ "](#" +++ toc_ref (snd s)
                       +++ ")") [(3, "How it Works?"); (2, "API"); (3, "Use")]
    /\ List.length (make_toc [(3, "How it Works?"); (2, "API"); (3, "Use")])
       = List.length [(3, "How it Works?"); (2, "API"); (3, "Use")]
    /\ (forall title, toc_ref title = concat_map anchor_char title)
    /\ toc_ref "How it Works?" = "how-it-works".
Proof.
  apply (toc_items [(3, "How it Works?"); (2, "API"); (3, "Use")]).
  discriminate.
Defined.

(** ** The document *)

Section Document.

Lemma split_nonempty (sep : ascii) (s : string) : split sep s <> [].
Proof.
  destruct s as [|c r]; simpl; [discriminate|].
  destruct (Ascii.eqb c sep); [discriminate|].
  destruct (split sep r); discriminate.
Qed.

(** The first line is one of the lines that are scanned. *)
Lemma doc_lines_hd (docstr : option string) :
  doc_lines docstr = hd EmptyString (doc_lines docstr) :: tl (doc_lines docstr).
Proof.
  unfold doc_lines.
  pose proof (split_nonempty LF (doctrim docstr)) as H.
  destruct (split LF (doctrim docstr)); [congruence|reflexivity].
Qed.

(** The loop only adds lines after those [md] holds already. *)
Lemma walk_from (lines : list string) :
  forall m b c lg,
    walk_end (fold_left walk_step lines (Walk m b c lg))
    = m ++ walk_end (fold_left walk_step lines (Walk [] b c lg)).
Proof.
  induction lines as [|l ls IH]; intros m b c lg.
  - unfold walk_end; simpl. destruct b; [reflexivity|]. now rewrite app_nil_r.
  - cbn [fold_left]. unfold walk_step at 2 4. cbn [is_code md code language].
    destruct b.
    + destruct (truthy l); [apply IH|].
      rewrite IH. rewrite (IH ([] ++ _)). now rewrite <- app_assoc.
    + destruct (startswith ">>> " (lstrip l)); [apply IH|].
      destruct (startswith "$ " (lstrip l)); [apply IH|].
      rewrite IH. rewrite (IH ([] ++ _)). now rewrite <- app_assoc.
Qed.

Lemma walk_body_from (md0 lines : list string) :
  walk_body md0 lines = md0 ++ walk_body [] lines.
Proof. apply walk_from. Qed.

Lemma walk_body_plain_lines (pre : list string) :
  Forall (fun l => block_language l = None) pre ->
  forall md0 rest, walk_body md0 (pre ++ rest) = walk_body (md0 ++ pre) rest.
Proof.
  induction 1 as [|l pre Hl _ IH]; intros md0 rest; simpl.
  - now rewrite app_nil_r.
  - rewrite (walk_body_plain _ _ _ Hl), IH, <- app_assoc. reflexivity.
Qed.

(** The document is the four opening lines, the table of contents of the
    sections of every line, and the body lines as the loop renders
    them. *)
Lemma doc2md_lines_parts (docstr : option string) (title : string) :
  doc2md_lines docstr title
  = [mul "#" (Z.max (toc_level (find_sections (doc_lines docstr)) - 1) 1)
     +++ " " +++ title;
     EmptyString; hd EmptyString (doc_lines docstr); EmptyString]
    ++ make_toc (find_sections (doc_lines docstr))
    ++ walk_body [] (tl (doc_lines docstr)).
Proof.
  unfold doc2md_lines. rewrite walk_body_from, <- app_assoc. reflexivity.
Qed.

Lemma toc_level_spec (sections : list (Z * string)) :
  sections <> [] ->
  In (toc_level sections) (map fst sections)
  /\ forall d, In d (map fst sections) -> toc_level sections <= d.
Proof.
  intros Hne.
  assert (Hm : map fst sections <> []) by (destruct sections; simpl; congruence).
  destruct sections; [congruence|]. apply (min_list_spec _ Hm).
Qed.

End Document.

(** C6.  The sections are scanned over all lines of the trimmed
    docstring, line 0 included.  The first line of the document is [#]
    repeated max(level - 1, 1) times, a space and the title, where level
    is the smallest depth of the headings found, and 2 when there is
    none; in that case the table of contents is empty.  The heading is
    followed by an empty line, line 0, an empty line, the table of
    contents and the body. *)
Theorem top_heading (docstr : option string) (title : string) :
  let lines := doc_lines docstr in
  let sections := find_sections lines in
  let level := toc_level sections in
  doc2md_lines docstr title
  = [mul "#" (Z.max (level - 1) 1) +++ " " +++ title;
     EmptyString; hd EmptyString lines; EmptyString]
    ++ make_toc sections ++ walk_body [] (tl lines)
  /\ (sections = [] ->
      level = 2 /\ make_toc sections = []
      /\ hd EmptyString (doc2md_lines docstr title) = "# " +++ title)
  /\ (sections <> [] ->
      In level (map fst sections)
      /\ forall d, In d (map fst sections) -> level <= d)
  /\ (forall n rest,
         (1 <= n)%nat ->
         hd EmptyString lines = repeat_nat "#" n +++ " " +++ rest ->
         In (Z.of_nat n, rest) sections).
Proof.
  intros lines sections level.
  split; [apply doc2md_lines_parts|]. split; [|split].
  - intros E. rewrite doc2md_lines_parts. fold lines sections.
    subst level. rewrite E. repeat split.
  - apply toc_level_spec.
  - intros n rest Hn E. apply find_sections_In. exists n.
    repeat split; auto. subst lines.
    rewrite (doc_lines_hd docstr), <- E. now left.
Qed.

Lemma top_heading_witness :
  (toc_level (find_sections (doc_lines None)) = 2
   /\ make_toc (find_sections (doc_lines None)) = []
   /\ hd EmptyString (doc2md_lines None "demo") = "# " +++ "demo")
  /\ (In (toc_level (find_sections
                       (doc_lines (Some ("### Deep" +++ nl +++ "text")))))
         (map fst (find_sections
                     (doc_lines (Some ("### Deep" +++ nl +++ "text")))))
      /\ forall d,
          In d (map fst (find_sections
                           (doc_lines (Some ("### Deep" +++ nl +++ "text")))))
          -> toc_level (find_sections
                          (doc_lines (Some ("### Deep" +++ nl +++ "text"))))
             <= d)
  /\ In (Z.of_nat 3, "Deep")
        (find_sections (doc_lines (Some ("### Deep" +++ nl +++ "text")))).
Proof.
  split; [|split].
  - apply (proj1 (proj2 (top_heading None "demo"))). reflexivity.
  - apply (proj1 (proj2 (proj2
             (top_heading (Some ("### Deep" +++ nl +++ "text")) "demo")))).
    vm_compute. discriminate.
  - apply (proj2 (proj2 (proj2
             (top_heading (Some ("### Deep" +++ nl +++ "text")) "demo")))
             3%nat "Deep"); [lia|reflexivity].
Defined.



(** ** Stripping white space *)

Section Strip.

Lemma rstrip_cons (c : ascii) (r : string) :
  rstrip (String c r)
  = if truthy (rstrip r) || negb (is_space c)
    then String c (rstrip r) else EmptyString.
Proof. cbn [rstrip]. destruct (rstrip r); destruct (is_space c); reflexivity. Qed.

Lemma rstrip_idem (s : string) : rstrip (rstrip s) = rstrip s.
Proof.
  induction s as [|c r IH]; [reflexivity|]. rewrite rstrip_cons.
  destruct (truthy (rstrip r) || negb (is_space c)) eqn:E; [|reflexivity].
  now rewrite rstrip_cons, IH, E.
Qed.

(** What [lstrip] leaves starts with a character that is no white
    space. *)
Lemma lstrip_head (s : string) :
  lstrip s = EmptyString
  \/ exists c r, lstrip s = String c r /\ is_space c = false.
Proof.
  induction s as [|c r IH]; cbn [lstrip]; [now left|].
  destruct (is_space c) eqn:E; [exact IH|right; eauto].
Qed.

Lemma lstrip_strip (s : string) : lstrip (strip s) = strip s.
Proof.
  unfold strip. destruct (lstrip_head s) as [->|(c & r & -> & E)];
    [reflexivity|].
  rewrite rstrip_cons, E, orb_true_r. cbn [lstrip]. now rewrite E.
Qed.

Lemma strip_idem (s : string) : strip (strip s) = strip s.
Proof.
  unfold strip at 1. rewrite lstrip_strip. unfold strip. apply rstrip_idem.
Qed.

Lemma truthy_strip (s : string) : truthy (strip s) = truthy (lstrip s).
Proof.
  unfold strip. destruct (lstrip_head s) as [->|(c & r & -> & E)];
    [reflexivity|].
  now rewrite rstrip_cons, E, orb_true_r.
Qed.

Lemma all_chars_append (p : ascii -> bool) (a b : string) :
  all_chars p (a +++ b) = all_chars p a && all_chars p b.
Proof.
  induction a as [|c a IH]; [reflexivity|].
  cbn [String.append all_chars]. now rewrite IH, andb_assoc.
Qed.

Lemma all_chars_lstrip (p : ascii -> bool) (s : string) :
  all_chars p s = true -> all_chars p (lstrip s) = true.
Proof.
  induction s as [|c r IH]; [reflexivity|].
  cbn [lstrip]. destruct (is_space c); [|auto].
  cbn [all_chars]. rewrite andb_true_iff. intros [_ H]. auto.
Qed.

Lemma all_chars_rstrip (p : ascii -> bool) (s : string) :
  all_chars p s = true -> all_chars p (rstrip s) = true.
Proof.
  induction s as [|c r IH]; [reflexivity|].
  cbn [all_chars]. rewrite andb_true_iff. intros [Hc Hr]. rewrite rstrip_cons.
  destruct (_ || _); [|reflexivity]. cbn [all_chars]. now rewrite Hc, IH.
Qed.

Lemma all_chars_drop (p : ascii -> bool) (n : nat) (s : string) :
  all_chars p s = true -> all_chars p (drop n s) = true.
Proof.
  revert s; induction n as [|n IH]; intros [|c r]; cbn [drop]; auto.
  cbn [all_chars]. rewrite andb_true_iff. intros [_ H]. auto.
Qed.

Lemma all_chars_strip (p : ascii -> bool) (s : string) :
  all_chars p s = true -> all_chars p (strip s) = true.
Proof. intros H. now apply all_chars_rstrip, all_chars_lstrip. Qed.

Lemma length_lstrip (s : string) :
  (String.length (lstrip s) <= String.length s)%nat.
Proof.
  induction s as [|c r IH]; cbn [lstrip]; [auto|].
  destruct (is_space c); cbn [String.length]; lia.
Qed.

(** Cutting a line at its indentation is [lstrip]. *)
Lemma drop_lead (s : string) :
  drop (String.length s - String.length (lstrip s)) s = lstrip s.
Proof.
  induction s as [|c r IH]; [reflexivity|]. cbn [lstrip].
  destruct (is_space c).
  - pose proof (length_lstrip r). cbn [String.length].
    replace (S (String.length r) - String.length (lstrip r))%nat
      with (S (String.length r - String.length (lstrip r))) by lia.
    exact IH.
  - now rewrite Nat.sub_diag.
Qed.

Lemma slice_lead (s : string) : slice_from (lead s) s = lstrip s.
Proof.
  unfold slice_from, lead, len.
  replace (Z.to_nat _)
    with (String.length s - String.length (lstrip s))%nat by lia.
  apply drop_lead.
Qed.

Lemma lead_nonneg (s : string) : 0 <= lead s.
Proof. unfold lead, len. pose proof (length_lstrip s). lia. Qed.

Lemma lead_fixed (s : string) : lstrip s = s -> lead s = 0.
Proof. unfold lead. intros ->. lia. Qed.

End Strip.

(** ** Tabs and lines *)

Section Lines.

Lemma all_chars_spaces (n : nat) : all_chars not_tab (repeat_nat " " n) = true.
Proof. induction n as [|n IH]; [reflexivity|]. cbn [repeat_nat]. exact IH. Qed.

Lemma expandtabs_no_tab (s : string) :
  forall col, all_chars not_tab (expandtabs_at col s) = true.
Proof.
  induction s as [|c r IH]; intros col; [reflexivity|].
  cbn [expandtabs_at]. destruct (Ascii.eqb c TAB) eqn:E.
  - now rewrite all_chars_append, all_chars_spaces, IH.
  - cbn [all_chars]. unfold not_tab at 1. now rewrite E, IH.
Qed.

(** A text without tabs is left as it is. *)
Lemma expandtabs_fixed (s : string) :
  all_chars not_tab s = true -> forall col, expandtabs_at col s = s.
Proof.
  induction s as [|c r IH]; intros H col; [reflexivity|].
  cbn [all_chars] in H. apply andb_true_iff in H as [Hc Hr].
  cbn [expandtabs_at]. unfold not_tab in Hc. apply negb_true_iff in Hc.
  now rewrite Hc, IH.
Qed.

(** The lines [splitlines] gives hold no line boundary, and no character
    the text does not hold. *)
Lemma splitlines_lines (p : ascii -> bool) (s : string) :
  Forall (fun l => all_chars not_linebreak l = true
                   /\ (all_chars p s = true -> all_chars p l = true))
         (splitlines s).
Proof.
  remember (String.length s) as n eqn:Hn.
  assert (Hle : (String.length s <= n)%nat) by lia. clear Hn.
  revert s Hle; induction n as [|n IH]; intros [|c r] Hle;
    try (constructor; fail); cbn [String.length] in Hle; [lia|].
  assert (Hr : (String.length r <= n)%nat) by lia.
  cbn [splitlines all_chars]. destruct (is_linebreak c) eqn:Hc.
  - constructor; [split; reflexivity|].
    assert (G : forall t, (String.length t <= n)%nat ->
                          (all_chars p r = true -> all_chars p t = true) ->
                Forall (fun l => all_chars not_linebreak l = true
                                 /\ (p c && all_chars p r = true ->
                                     all_chars p l = true))
                       (splitlines t)).
    { intros t Ht Hsub. eapply Forall_impl; [|apply (IH t Ht)].
      intros l [H1 H2]. split; [exact H1|].
      rewrite andb_true_iff. intros [_ H]. auto. }
    destruct r as [|c' r']; [constructor|].
    destruct (Ascii.eqb c CR && Ascii.eqb c' LF).
    + apply G; [cbn [String.length] in Hr; lia|].
      cbn [all_chars]. rewrite andb_true_iff. tauto.
    + apply G; auto.
  - specialize (IH r Hr). destruct (splitlines r) as [|l ls].
    + constructor; [|constructor]. split.
      * cbn [all_chars]. unfold not_linebreak. now rewrite Hc.
      * cbn [all_chars]. rewrite !andb_true_iff. tauto.
    + inversion IH as [|? ? [H1 H2] Hls]; subst. constructor.
      * split.
        -- cbn [all_chars]. unfold not_linebreak at 1. now rewrite Hc.
        -- cbn [all_chars]. rewrite !andb_true_iff. intros [Hpc Hpr]. auto.
      * eapply Forall_impl; [|exact Hls]. intros l' [H3 H4]. split; [exact H3|].
        rewrite andb_true_iff. intros [_ H]. auto.
Qed.

Lemma splitlines_line (l s : string) :
  all_chars not_linebreak l = true ->
  splitlines (l +++ String LF s) = l :: splitlines s.
Proof.
  induction l as [|c r IH]; intros H.
  - cbn [String.append splitlines]. change (is_linebreak LF) with true.
    cbv iota. destruct s; reflexivity.
  - cbn [all_chars] in H. apply andb_true_iff in H as [Hc Hr].
    unfold not_linebreak in Hc. apply negb_true_iff in Hc.
    cbn [String.append splitlines]. now rewrite Hc, (IH Hr).
Qed.

Lemma splitlines_single (l : string) :
  all_chars not_linebreak l = true -> l <> EmptyString ->
  splitlines l = [l].
Proof.
  induction l as [|c r IH]; intros H Hne; [congruence|].
  cbn [all_chars] in H. apply andb_true_iff in H as [Hc Hr].
  unfold not_linebreak in Hc. apply negb_true_iff in Hc.
  cbn [splitlines]. rewrite Hc. destruct r as [|c' r']; [reflexivity|].
  rewrite (IH Hr); [reflexivity|discriminate].
Qed.

Lemma join_cons (x y : string) (ys : list string) :
  join nl (x :: y :: ys) = x +++ String LF (join nl (y :: ys)).
Proof. reflexivity. Qed.

Lemma pop_trailing_keep (x : string) (r : list string) :
  truthy x = true -> pop_trailing (x :: r) = x :: pop_trailing r.
Proof. intros H. cbn [pop_trailing]. rewrite H. now destruct (pop_trailing r). Qed.

Lemma pop_trailing_idem (l : list string) :
  pop_trailing (pop_trailing l) = pop_trailing l.
Proof.
  induction l as [|x r IH]; [reflexivity|]. cbn [pop_trailing].
  destruct (pop_trailing r) as [|y r'] eqn:E.
  - destruct (truthy x) eqn:Hx; [|reflexivity]. cbn [pop_trailing]. now rewrite Hx.
  - cbn [pop_trailing] in IH |- *. now rewrite IH.
Qed.

Lemma pop_trailing_In (x : string) (l : list string) :
  In x (pop_trailing l) -> In x l.
Proof.
  induction l as [|y r IH]; [auto|]. cbn [pop_trailing].
  destruct (pop_trailing r) as [|z r'].
  - destruct (truthy y); simpl; tauto.
  - intros [H|H]; [now left|right; auto].
Qed.

Lemma In_pop_trailing (x : string) (l : list string) :
  In x l -> x <> EmptyString -> In x (pop_trailing l).
Proof.
  intros Hin Hx. induction l as [|y r IH]; [destruct Hin|].
  cbn [pop_trailing]. destruct Hin as [->|Hin].
  - apply truthy_iff in Hx. rewrite Hx. destruct (pop_trailing r); now left.
  - specialize (IH Hin). destruct (pop_trailing r); [destruct IH|now right].
Qed.

Lemma pop_trailing_fixed_tail (x y : string) (ys : list string) :
  pop_trailing (x :: y :: ys) = x :: y :: ys ->
  pop_trailing (y :: ys) = y :: ys.
Proof.
  change (pop_trailing (x :: y :: ys))
    with (match pop_trailing (y :: ys) with
          | [] => if truthy x then [x] else []
          | z :: r => x :: z :: r
          end).
  destruct (pop_trailing (y :: ys)) as [|z r].
  - destruct (truthy x); intros H; discriminate H.
  - congruence.
Qed.

Lemma pop_trailing_fixed_single (x : string) :
  pop_trailing [x] = [x] -> x <> EmptyString.
Proof. destruct x; cbn; intros H; [discriminate H|discriminate]. Qed.

(** Lines without boundaries, the last of them not empty, are the lines
    of their join. *)
Lemma splitlines_join (ls : list string) :
  Forall (fun l => all_chars not_linebreak l = true) ls ->
  pop_trailing ls = ls ->
  splitlines (join nl ls) = ls.
Proof.
  induction 1 as [|x r Hx Hr IH]; intros Hfix; [reflexivity|].
  destruct r as [|y ys].
  - apply splitlines_single; [exact Hx|]. now apply pop_trailing_fixed_single.
  - rewrite join_cons, (splitlines_line _ _ Hx).
    f_equal. apply IH. eapply pop_trailing_fixed_tail, Hfix.
Qed.

Lemma all_chars_join (p : ascii -> bool) (ls : list string) :
  p LF = true ->
  Forall (fun l => all_chars p l = true) ls ->
  all_chars p (join nl ls) = true.
Proof.
  intros Hp. induction 1 as [|x r Hx Hr IH]; [reflexivity|].
  destruct r as [|y ys]; [exact Hx|].
  rewrite join_cons, all_chars_append. cbn [all_chars]. now rewrite Hx, Hp, IH.
Qed.

End Lines.

(** ** The smallest indentation *)

Section Indent.

Lemma indent_step_eq (indent : Z) (line : string) :
  indent_step indent line
  = if truthy (lstrip line) then Z.min indent (lead line) else indent.
Proof. reflexivity. Qed.

Lemma fold_indent_le (ls : list string) (acc : Z) :
  fold_left indent_step ls acc <= acc.
Proof.
  revert acc; induction ls as [|l ls IH]; intros acc; cbn [fold_left]; [lia|].
  specialize (IH (indent_step acc l)). rewrite indent_step_eq in IH |- *.
  destruct (truthy (lstrip l)); lia.
Qed.

Lemma fold_indent_lower (ls : list string) (acc : Z) (l : string) :
  In l ls -> truthy (lstrip l) = true ->
  fold_left indent_step ls acc <= lead l.
Proof.
  revert acc; induction ls as [|x ls IH]; intros acc; [intros []|].
  cbn [fold_left]. intros [->|Hin] Hl; [|now apply IH].
  pose proof (fold_indent_le ls (indent_step acc l)) as H.
  rewrite indent_step_eq, Hl in H |- *. lia.
Qed.

Lemma fold_indent_nonneg (ls : list string) (acc : Z) :
  0 <= acc -> 0 <= fold_left indent_step ls acc.
Proof.
  revert acc; induction ls as [|l ls IH]; intros acc Hacc; cbn [fold_left];
    [exact Hacc|].
  apply IH. rewrite indent_step_eq. pose proof (lead_nonneg l).
  destruct (truthy (lstrip l)); lia.
Qed.

(** The loop ends with its starting value or with the indentation of a
    line that holds more than white space. *)
Lemma fold_indent_attained (ls : list string) (acc : Z) :
  fold_left indent_step ls acc = acc
  \/ exists l, In l ls /\ truthy (lstrip l) = true
               /\ fold_left indent_step ls acc = lead l.
Proof.
  revert acc; induction ls as [|x ls IH]; intros acc; cbn [fold_left];
    [now left|].
  destruct (IH (indent_step acc x)) as [E|(l & Hin & Hl & E)].
  - rewrite E, indent_step_eq. destruct (truthy (lstrip x)) eqn:Hx; [|now left].
    destruct (Z.min_spec acc (lead x)) as [[_ ->]|[_ ->]]; [now left|].
    right. exists x. rewrite indent_step_eq, Hx in E. repeat split; auto.
    now left.
  - right. exists l. repeat split; auto. now right.
Qed.

Lemma min_indent_zero (ls : list string) :
  (exists l, In l ls /\ l <> EmptyString /\ lstrip l = l) ->
  min_indent ls = 0.
Proof.
  intros (l & Hin & Hne & Hfix). unfold min_indent.
  assert (Hl : truthy (lstrip l) = true) by (rewrite Hfix; now apply truthy_iff).
  pose proof (fold_indent_lower ls maxsize l Hin Hl) as H1.
  rewrite (lead_fixed _ Hfix) in H1.
  assert (H2 : 0 <= fold_left indent_step ls maxsize)
    by (apply fold_indent_nonneg; unfold maxsize; lia).
  lia.
Qed.

End Indent.

(** ** Trimming a docstring *)

Section Trim.

Lemma expandtabs_nonempty (text : string) :
  text <> EmptyString -> expandtabs text <> EmptyString.
Proof.
  destruct text as [|c r]; [congruence|]. intros _. unfold expandtabs.
  cbn [expandtabs_at]. destruct (Ascii.eqb c TAB); [|discriminate].
  change (0 mod 8)%nat with 0%nat. cbn. discriminate.
Qed.

Lemma splitlines_nonempty (text : string) :
  text <> EmptyString -> splitlines text <> [].
Proof.
  destruct text as [|c r]; [congruence|]. intros _. cbn [splitlines].
  destruct (is_linebreak c); [discriminate|].
  destruct (splitlines r); discriminate.
Qed.

(** A text that is not empty has a line 0. *)
Lemma splitlines_expandtabs_nonempty (text : string) :
  text <> EmptyString -> splitlines (expandtabs text) <> [].
Proof. intros H. now apply splitlines_nonempty, expandtabs_nonempty. Qed.

Lemma doctrim_text (text : string) :
  text <> EmptyString ->
  doctrim (Some text)
  = join nl
      (pop_leading
         (pop_trailing
            ([strip (hd EmptyString (splitlines (expandtabs text)))]
             ++ (if min_indent (tl (splitlines (expandtabs text))) <? maxsize
                 then map (fun line =>
                             rstrip (slice_from
                                       (min_indent
                                          (tl (splitlines (expandtabs text))))
                                       line))
                          (tl (splitlines (expandtabs text)))
                 else [])))).
Proof. destruct text; [congruence|reflexivity]. Qed.

Lemma join_nonempty (t0 : string) (ts : list string) :
  t0 <> EmptyString -> join nl (t0 :: ts) <> EmptyString.
Proof.
  destruct t0; [congruence|]. intros _. destruct ts; discriminate.
Qed.

(** [doctrim] leaves the join of lines in trimmed form as it is. *)
Lemma doctrim_fixed (ls : list string) :
  trimmed_form ls -> doctrim (Some (join nl ls)) = join nl ls.
Proof.
  destruct ls as [|t0 ts]; [reflexivity|].
  intros (Hne & Hs & Hr & Hclean & Hpop & Hw).
  rewrite (doctrim_text _ (join_nonempty t0 ts Hne)).
  assert (Etab : expandtabs (join nl (t0 :: ts)) = join nl (t0 :: ts)).
  { apply expandtabs_fixed, all_chars_join; [reflexivity|].
    eapply Forall_impl; [|exact Hclean]. now intros l [H _]. }
  rewrite Etab.
  assert (Elines : splitlines (join nl (t0 :: ts)) = t0 :: ts).
  { apply splitlines_join; [|exact Hpop].
    eapply Forall_impl; [|exact Hclean]. now intros l [_ H]. }
  rewrite Elines. cbn [hd tl]. rewrite Hs.
  assert (Ht0 : truthy t0 = true) by now apply truthy_iff.
  destruct Hw as [->|Hw].
  - change (min_indent [] <? maxsize) with false. cbv iota.
    cbn [app]. rewrite Hpop. cbn [pop_leading]. now rewrite Ht0.
  - rewrite (min_indent_zero _ Hw). change (0 <? maxsize) with true. cbv iota.
    assert (Emap : map (fun line => rstrip (slice_from 0 line)) ts = ts).
    { clear - Hr. induction Hr as [|l ls Hl _ IH]; [reflexivity|].
      cbn [map]. rewrite IH. f_equal. exact Hl. }
    rewrite Emap. cbn [app]. rewrite Hpop. cbn [pop_leading]. now rewrite Ht0.
Qed.

(** When line 0 holds more than white space, what [doctrim] joins is in
    trimmed form. *)
Lemma doctrim_trimmed_form (text : string) :
  strip (first_line text) <> EmptyString ->
  exists ls, doctrim (Some text) = join nl ls /\ trimmed_form ls.
Proof.
  unfold first_line. intros Hfirst.
  assert (Htext : text <> EmptyString) by (intros ->; now apply Hfirst).
  rewrite (doctrim_text _ Htext).
  assert (Hlines : Forall (fun l => all_chars not_linebreak l = true
                                   /\ all_chars not_tab l = true)
                          (splitlines (expandtabs text))).
  { eapply Forall_impl; [|apply (splitlines_lines not_tab)].
    intros l [H1 H2]. split; [exact H1|]. apply H2, expandtabs_no_tab. }
  destruct (splitlines (expandtabs text)) as [|l0 rest];
    [exfalso; now apply Hfirst|].
  cbn [hd tl] in *.
  inversion Hlines as [|? ? [Hb0 Ht0] Hrest]; subst.
  set (indent := min_indent rest).
  set (R := if indent <? maxsize
            then map (fun line => rstrip (slice_from indent line)) rest
            else []).
  assert (HR : forall x, In x R ->
                         exists l, In l rest
                                   /\ x = rstrip (slice_from indent l)).
  { subst R. destruct (indent <? maxsize); [|intros x []].
    intros x Hx. apply in_map_iff in Hx as (l & <- & Hl). eauto. }
  assert (Hkeep : truthy (strip l0) = true) by now apply truthy_iff.
  cbn [app]. rewrite (pop_trailing_keep _ _ Hkeep). cbn [pop_leading].
  rewrite Hkeep. exists (strip l0 :: pop_trailing R). split; [reflexivity|].
  cbn [trimmed_form]. split; [exact Hfirst|]. split; [apply strip_idem|].
  split; [|split; [|split]].
  - apply Forall_forall. intros x Hx.
    apply pop_trailing_In, HR in Hx as (l & _ & ->). apply rstrip_idem.
  - constructor; [split; now apply all_chars_strip|].
    apply Forall_forall. intros x Hx.
    apply pop_trailing_In, HR in Hx as (l & Hl & ->).
    apply (proj1 (Forall_forall _ _) Hrest) in Hl as [Hbl Htl].
    split; now apply all_chars_rstrip, all_chars_drop.
  - now rewrite (pop_trailing_keep _ _ Hkeep), pop_trailing_idem.
  - destruct (pop_trailing R) as [|y ys] eqn:EP; [now left|right].
    rewrite <- EP.
    assert (Hlt : (indent <? maxsize) = true).
    { subst R. destruct (indent <? maxsize); [reflexivity|discriminate EP]. }
    destruct (fold_indent_attained rest maxsize) as [E|(lm & Hin & Hlm & E)].
    + exfalso. fold (min_indent rest) in E. fold indent in E.
      rewrite E in Hlt. unfold maxsize in Hlt.
      apply Z.ltb_lt in Hlt. lia.
    + fold (min_indent rest) in E. fold indent in E.
      exists (strip lm).
      assert (Hne : strip lm <> EmptyString)
        by (apply truthy_iff; now rewrite truthy_strip).
      split; [|split; [exact Hne|apply lstrip_strip]].
      apply In_pop_trailing; [|exact Hne].
      subst R. rewrite Hlt.
      replace (strip lm) with (rstrip (slice_from indent lm))
        by (rewrite E, slice_lead; reflexivity).
      now apply (in_map (fun line => rstrip (slice_from indent line))).
Qed.

End Trim.

(** C5, as the code has it.  [doctrim] applied twice gives what it gives
    applied once for [None], for the empty text, and for every text whose
    first line holds a character that is no white space. *)
Theorem doctrim_idempotent_first_line :
  doctrim (Some (doctrim None)) = doctrim None
  /\ doctrim (Some (doctrim (Some EmptyString))) = doctrim (Some EmptyString)
  /\ forall text,
      strip (first_line text) <> EmptyString ->
      doctrim (Some (doctrim (Some text))) = doctrim (Some text).
Proof.
  split; [reflexivity|]. split; [reflexivity|].
  intros text H. destruct (doctrim_trimmed_form text H) as (ls & -> & Hls).
  now apply doctrim_fixed.
Qed.

Lemma doctrim_idempotent_first_line_witness :
  let text := "Summary." +++ nl +++ nl +++ String TAB "indented  " +++ nl
              +++ "        body" +++ nl +++ "    " +++ nl in
  doctrim (Some (doctrim (Some text))) = doctrim (Some text).
Proof.
  apply (proj2 (proj2 doctrim_idempotent_first_line)).
  vm_compute. discriminate.
Defined.

(** C5 as stated fails.  The text ["\n    a\n  b"] has an empty first
    line; [doctrim] takes the common indentation of two from the other
    lines and drops the empty line, which leaves ["  a\nb"].  Now [  a] is
    the first line, and a second [doctrim] strips it: ["a\nb"]. *)
Lemma doctrim_not_idempotent :
  let text := nl +++ "    a" +++ nl +++ "  b" in
  doctrim (Some text) = "  a" +++ nl +++ "b"
  /\ doctrim (Some (doctrim (Some text))) = "a" +++ nl +++ "b"
  /\ doctrim (Some (doctrim (Some text))) <> doctrim (Some text).
Proof.
  split; [|split]; [vm_compute; reflexivity ..|].
  vm_compute. discriminate.
Qed.

(** * Further properties of the module *)

(** ** Splitting at line feeds and joining again *)

Section SplitJoin.

Lemma join_cons_char (c : ascii) (l : string) (ls : list string) :
  join nl (String c l :: ls) = String c (join nl (l :: ls)).
Proof. destruct ls; reflexivity. Qed.

(** ['\n'.join(s.split('\n'))] is [s]. *)
Lemma join_split (s : string) : join nl (split LF s) = s.
Proof.
  induction s as [|c r IH]; [reflexivity|]. cbn [split].
  pose proof (split_nonempty LF r) as Hne.
  destruct (Ascii.eqb_spec c LF) as [->|Hc].
  - destruct (split LF r) as [|y ys]; [congruence|].
    rewrite join_cons, IH. reflexivity.
  - destruct (split LF r) as [|y ys]; [congruence|].
    now rewrite join_cons_char, IH.
Qed.

Lemma not_linebreak_LF (c : ascii) :
  not_linebreak c = true -> Ascii.eqb c LF = false.
Proof.
  destruct (Ascii.eqb_spec c LF) as [->|]; [discriminate|reflexivity].
Qed.

Lemma split_line (l s : string) :
  all_chars not_linebreak l = true ->
  split LF (l +++ String LF s) = l :: split LF s.
Proof.
  induction l as [|c r IH]; intros H; [reflexivity|].
  cbn [all_chars] in H. apply andb_true_iff in H as [Hc Hr].
  cbn [String.append split]. now rewrite (not_linebreak_LF _ Hc), (IH Hr).
Qed.

Lemma split_single (l : string) :
  all_chars not_linebreak l = true -> split LF l = [l].
Proof.
  induction l as [|c r IH]; intros H; [reflexivity|].
  cbn [all_chars] in H. apply andb_true_iff in H as [Hc Hr].
  cbn [split]. now rewrite (not_linebreak_LF _ Hc), (IH Hr).
Qed.

Lemma split_join (ls : list string) :
  Forall (fun l => all_chars not_linebreak l = true) ls -> ls <> [] ->
  split LF (join nl ls) = ls.
Proof.
  induction 1 as [|x r Hx Hr IH]; intros Hne; [congruence|].
  destruct r as [|y ys]; [now apply split_single|].
  rewrite join_cons, (split_line _ _ Hx). f_equal. apply IH. discriminate.
Qed.

End SplitJoin.

(** ** Empty lines at the ends *)

Section Pops.

Lemma pop_leading_In (x : string) (l : list string) :
  In x (pop_leading l) -> In x l.
Proof.
  induction l as [|y r IH]; [auto|]. cbn [pop_leading].
  destruct (truthy y); [auto|]. intros H. right. auto.
Qed.

Lemma pop_leading_length (l : list string) :
  (List.length (pop_leading l) <= List.length l)%nat.
Proof.
  induction l as [|y r IH]; [auto|]. cbn [pop_leading].
  destruct (truthy y); cbn [List.length]; lia.
Qed.

Lemma pop_leading_idem (l : list string) :
  pop_leading (pop_leading l) = pop_leading l.
Proof.
  induction l as [|y r IH]; [reflexivity|]. cbn [pop_leading].
  destruct (truthy y) eqn:E; [|exact IH]. cbn [pop_leading]. now rewrite E.
Qed.

Lemma pop_trailing_fixed_tl (x : string) (r : list string) :
  pop_trailing (x :: r) = x :: r -> pop_trailing r = r.
Proof.
  destruct r as [|y ys]; [reflexivity|]. apply pop_trailing_fixed_tail.
Qed.

Lemma pop_trailing_pop_leading (l : list string) :
  pop_trailing l = l -> pop_trailing (pop_leading l) = pop_leading l.
Proof.
  induction l as [|x r IH]; [reflexivity|]. intros H. cbn [pop_leading].
  destruct (truthy x); [exact H|]. apply IH. eapply pop_trailing_fixed_tl, H.
Qed.

Lemma pop_leading_fixed_hd (x : string) (r : list string) :
  pop_leading (x :: r) = x :: r -> x <> EmptyString.
Proof.
  cbn [pop_leading]. destruct (truthy x) eqn:E; [intros _; now apply truthy_iff|].
  intros H. pose proof (pop_leading_length r) as Hl. rewrite H in Hl.
  cbn [List.length] in Hl. lia.
Qed.

Lemma pop_trailing_fixed_last (l : list string) :
  pop_trailing l = l -> l <> [] -> last l EmptyString <> EmptyString.
Proof.
  induction l as [|x r IH]; [congruence|]. intros H _.
  destruct r as [|y ys].
  - now apply pop_trailing_fixed_single.
  - change (last (x :: y :: ys) EmptyString) with (last (y :: ys) EmptyString).
    apply IH; [|discriminate]. eapply pop_trailing_fixed_tail, H.
Qed.

End Pops.

(** ** What [doctrim] returns *)

Section TrimForm.

Lemma rstrip_strip (s : string) : rstrip (strip s) = strip s.
Proof. unfold strip. apply rstrip_idem. Qed.

(** The lines [doctrim] joins: none of them ends in white space or holds
    a tab or a line boundary, and neither the first nor the last is
    empty. *)
Lemma doctrim_lines (docstring : option string) :
  exists ls,
    doctrim docstring = join nl ls
    /\ Forall (fun l => rstrip l = l /\ all_chars not_tab l = true
                        /\ all_chars not_linebreak l = true) ls
    /\ pop_trailing ls = ls /\ pop_leading ls = ls.
Proof.
  destruct docstring as [[|c0 r0]|];
    [exists []; repeat split; constructor| |exists []; repeat split; constructor].
  rewrite doctrim_text by discriminate.
  set (lines := splitlines (expandtabs (String c0 r0))).
  assert (Hlines : Forall (fun l => all_chars not_linebreak l = true
                                   /\ all_chars not_tab l = true) lines).
  { eapply Forall_impl; [|apply (splitlines_lines not_tab)].
    intros l [H1 H2]. split; [exact H1|]. apply H2, expandtabs_no_tab. }
  assert (Hhd : all_chars not_linebreak (hd EmptyString lines) = true
                /\ all_chars not_tab (hd EmptyString lines) = true).
  { destruct Hlines as [|? ? H _]; [split; reflexivity|exact H]. }
  assert (Htl : Forall (fun l => all_chars not_linebreak l = true
                                 /\ all_chars not_tab l = true) (tl lines)).
  { destruct Hlines as [|? ? _ H]; [constructor|exact H]. }
  set (indent := min_indent (tl lines)).
  set (trimmed := [strip (hd EmptyString lines)]
                  ++ (if indent <? maxsize
                      then map (fun line => rstrip (slice_from indent line))
                               (tl lines)
                      else [])).
  assert (Htrimmed : Forall (fun l => rstrip l = l /\ all_chars not_tab l = true
                                      /\ all_chars not_linebreak l = true)
                            trimmed).
  { subst trimmed. cbn [app]. constructor.
    - destruct Hhd. repeat split;
        [apply rstrip_strip|now apply all_chars_strip ..].
    - destruct (indent <? maxsize); [|constructor].
      apply Forall_forall. intros x Hx.
      apply in_map_iff in Hx as (l & <- & Hl).
      apply (proj1 (Forall_forall _ _) Htl) in Hl as [H1 H2].
      repeat split; [apply rstrip_idem| |];
        now apply all_chars_rstrip, all_chars_drop. }
  exists (pop_leading (pop_trailing trimmed)). split; [reflexivity|].
  split; [|split].
  - apply Forall_forall. intros x Hx.
    apply pop_leading_In, pop_trailing_In in Hx.
    exact (proj1 (Forall_forall _ _) Htrimmed x Hx).
  - apply pop_trailing_pop_leading, pop_trailing_idem.
  - apply pop_leading_idem.
Qed.

End TrimForm.

(** X1.  The lines [doc2md] gets from the trimmed docstring join back to
    it with line feeds; none of them ends in white space, holds a tab or
    holds a line boundary; and unless the trimmed docstring is empty,
    neither its first nor its last line is empty. *)
Theorem trimmed_lines (docstring : option string) :
  join nl (doc_lines docstring) = doctrim docstring
  /\ Forall (fun l => rstrip l = l /\ all_chars not_tab l = true
                      /\ all_chars not_linebreak l = true)
            (doc_lines docstring)
  /\ (doctrim docstring <> EmptyString ->
      hd EmptyString (doc_lines docstring) <> EmptyString
      /\ last (doc_lines docstring) EmptyString <> EmptyString).
Proof.
  split; [apply join_split|].
  destruct (doctrim_lines docstring) as (ls & E & Hall & Htr & Hle).
  unfold doc_lines. rewrite E. destruct ls as [|x r].
  - split; [repeat constructor|]. intros H. now destruct H.
  - assert (Hsplit : split LF (join nl (x :: r)) = x :: r).
    { apply split_join; [|discriminate].
      eapply Forall_impl; [|exact Hall]. now intros l (_ & _ & H). }
    rewrite Hsplit. split; [exact Hall|]. intros _. split.
    + now apply (pop_leading_fixed_hd x r).
    + apply pop_trailing_fixed_last; [exact Htr|discriminate].
Qed.

Lemma trimmed_lines_witness :
  let doc := Some (nl +++ "    Usage:  " +++ nl +++ String TAB "run" +++ nl
                   +++ "  " +++ nl) in
  hd EmptyString (doc_lines doc) <> EmptyString
  /\ last (doc_lines doc) EmptyString <> EmptyString.
Proof.
  apply (proj2 (proj2 (trimmed_lines
           (Some (nl +++ "    Usage:  " +++ nl +++ String TAB "run" +++ nl
                  +++ "  " +++ nl))))).
  vm_compute. discriminate.
Defined.

(** ** Texts of white space only *)

Section Blank.

Lemma all_chars_repeat_space (p : ascii -> bool) (n : nat) :
  p SP = true -> all_chars p (repeat_nat " " n) = true.
Proof.
  intros Hp. unfold SP in Hp. induction n as [|n IH]; [reflexivity|].
  cbn [repeat_nat String.append all_chars]. now rewrite Hp, IH.
Qed.

Lemma all_chars_expandtabs (p : ascii -> bool) (s : string) :
  p SP = true -> all_chars p s = true ->
  forall col, all_chars p (expandtabs_at col s) = true.
Proof.
  intros Hp. induction s as [|c r IH]; intros H col; [reflexivity|].
  cbn [all_chars] in H. apply andb_true_iff in H as [Hc Hr].
  cbn [expandtabs_at]. destruct (Ascii.eqb c TAB).
  - now rewrite all_chars_append, all_chars_repeat_space, IH.
  - cbn [all_chars]. now rewrite Hc, IH.
Qed.

Lemma lstrip_blank (s : string) :
  all_chars is_space s = true -> lstrip s = EmptyString.
Proof.
  induction s as [|c r IH]; [reflexivity|]. cbn [all_chars lstrip].
  rewrite andb_true_iff. intros [-> Hr]. auto.
Qed.

Lemma rstrip_blank (s : string) :
  all_chars is_space s = true -> rstrip s = EmptyString.
Proof.
  induction s as [|c r IH]; [reflexivity|]. cbn [all_chars].
  rewrite andb_true_iff. intros [Hc Hr]. now rewrite rstrip_cons, IH, Hc.
Qed.

Lemma min_indent_blank (ls : list string) :
  Forall (fun l => lstrip l = EmptyString) ls -> min_indent ls = maxsize.
Proof.
  unfold min_indent. intros H. generalize maxsize.
  induction H as [|l ls Hl _ IH]; intros acc; [reflexivity|].
  cbn [fold_left]. rewrite indent_step_eq, Hl. apply IH.
Qed.

Lemma doctrim_blank_text (text : string) :
  all_chars is_space text = true -> doctrim (Some text) = EmptyString.
Proof.
  intros Hblank. destruct text as [|c0 r0]; [reflexivity|].
  rewrite doctrim_text by discriminate.
  set (lines := splitlines (expandtabs (String c0 r0))).
  assert (Hlines : Forall (fun l => all_chars is_space l = true) lines).
  { eapply Forall_impl; [|apply (splitlines_lines is_space)].
    intros l [_ H]. apply H. now apply all_chars_expandtabs. }
  assert (Hhd : strip (hd EmptyString lines) = EmptyString).
  { unfold strip. destruct Hlines as [|l ls H _]; [reflexivity|].
    cbn [hd]. now rewrite (lstrip_blank _ H). }
  assert (Htl : min_indent (tl lines) = maxsize).
  { apply min_indent_blank. destruct Hlines as [|l ls _ H]; [constructor|].
    cbn [tl]. eapply Forall_impl; [|exact H]. apply lstrip_blank. }
  rewrite Hhd, Htl. reflexivity.
Qed.

End Blank.

(** X2.  A docstring of white space only (spaces, tabs, line boundaries)
    is trimmed to the empty text, like [None] and the empty docstring,
    and its document is the top heading [# title] and three empty
    lines. *)
Theorem blank_docstring (text title : string) :
  all_chars is_space text = true ->
  doctrim (Some text) = EmptyString
  /\ doc2md_lines (Some text) title
     = ["# " +++ title; EmptyString; EmptyString; EmptyString]
  /\ doc2md_lines None title = doc2md_lines (Some text) title.
Proof.
  intros H. pose proof (doctrim_blank_text text H) as E.
  split; [exact E|].
  assert (G : doc2md_lines (Some text) title
              = ["# " +++ title; EmptyString; EmptyString; EmptyString]).
  { unfold doc2md_lines, doc_lines. rewrite E. reflexivity. }
  split; [exact G|]. rewrite G. reflexivity.
Qed.

Lemma blank_docstring_witness :
  let text := "  " +++ nl +++ String TAB " " +++ String CR nl in
  doctrim (Some text) = EmptyString
  /\ doc2md_lines (Some text) "demo"
     = ["# " +++ "demo"; EmptyString; EmptyString; EmptyString]
  /\ doc2md_lines None "demo" = doc2md_lines (Some text) "demo".
Proof.
  apply (blank_docstring ("  " +++ nl +++ String TAB " " +++ String CR nl)).
  reflexivity.
Defined.

(** ** Indenting and trimming *)

Section Reindent.

Lemma length_repeat_space (n : nat) : String.length (repeat_nat " " n) = n.
Proof. induction n as [|n IH]; [reflexivity|]. cbn. now rewrite IH. Qed.

Lemma lstrip_spaces (n : nat) (t : string) :
  lstrip (repeat_nat " " n +++ t) = lstrip t.
Proof. induction n as [|n IH]; [reflexivity|]. cbn. exact IH. Qed.

Lemma drop_spaces (n : nat) (t : string) : drop n (repeat_nat " " n +++ t) = t.
Proof. induction n as [|n IH]; [reflexivity|]. cbn. exact IH. Qed.

Lemma lead_spaces (n : nat) (t : string) :
  lead (repeat_nat " " n +++ t) = Z.of_nat n + lead t.
Proof.
  unfold lead. rewrite lstrip_spaces, len_append. unfold len at 1.
  rewrite length_repeat_space. lia.
Qed.

Lemma fold_indent_ge (k : Z) (ls : list string) :
  (forall l, In l ls -> truthy (lstrip l) = true -> k <= lead l) ->
  forall acc, k <= acc -> k <= fold_left indent_step ls acc.
Proof.
  induction ls as [|x ls IH]; intros H acc Hacc; [exact Hacc|].
  cbn [fold_left]. apply IH; [intros l Hl; apply H; now right|].
  rewrite indent_step_eq. destruct (truthy (lstrip x)) eqn:E; [|exact Hacc].
  specialize (H x (or_introl eq_refl) E). lia.
Qed.

Lemma indented_truthy (n : nat) (u t : string) :
  indented n u t -> truthy t = true -> truthy u = true.
Proof.
  intros [->|[-> _]] H; [|discriminate H].
  destruct t; [discriminate H|]. destruct n; reflexivity.
Qed.

Lemma indented_pop_trailing (n : nat) (us ts : list string) :
  Forall2 (indented n) us ts -> pop_trailing ts = ts -> pop_trailing us = us.
Proof.
  induction 1 as [|u t us ts Hut Hrest IH]; [reflexivity|]. intros Hfix.
  specialize (IH (pop_trailing_fixed_tl _ _ Hfix)).
  cbn [pop_trailing]. rewrite IH. destruct us as [|u' us']; [|reflexivity].
  inversion Hrest; subst.
  apply pop_trailing_fixed_single, truthy_iff in Hfix.
  now rewrite (indented_truthy _ _ _ Hut Hfix).
Qed.

Lemma indented_clean (n : nat) (us ts : list string) :
  Forall2 (indented n) us ts ->
  Forall (fun l => all_chars not_tab l = true
                   /\ all_chars not_linebreak l = true) ts ->
  Forall (fun l => all_chars not_tab l = true
                   /\ all_chars not_linebreak l = true) us.
Proof.
  induction 1 as [|u t us ts Hut _ IH]; intros Hts; [constructor|].
  inversion Hts as [|? ? [H1 H2] Hts']; subst. constructor; [|auto].
  destruct Hut as [->|(_ & _ & H3 & H4)]; [|auto].
  rewrite !all_chars_append, H1, H2, !all_chars_repeat_space; auto.
Qed.

Lemma indented_lead (n : nat) (us ts : list string) :
  Forall2 (indented n) us ts ->
  forall u, In u us -> truthy (lstrip u) = true -> Z.of_nat n <= lead u.
Proof.
  induction 1 as [|u t us ts Hut _ IH]; intros x; [intros []|].
  intros [<-|Hx] Hnb; [|now apply IH].
  destruct Hut as [->|(_ & Hb & _)].
  - rewrite lead_spaces. pose proof (lead_nonneg t). lia.
  - rewrite (lstrip_blank _ Hb) in Hnb. discriminate Hnb.
Qed.

Lemma indented_In (n : nat) (us ts : list string) (w : string) :
  Forall2 (indented n) us ts -> In w ts -> w <> EmptyString ->
  In (repeat_nat " " n +++ w) us.
Proof.
  induction 1 as [|u t us ts Hut _ IH]; [intros []|].
  intros [->|Hw] Hne; [|right; auto].
  left. destruct Hut as [->|[-> _]]; congruence.
Qed.

Lemma indented_trim (n : nat) (us ts : list string) :
  Forall2 (indented n) us ts ->
  Forall (fun l => rstrip l = l) ts ->
  map (fun line => rstrip (slice_from (Z.of_nat n) line)) us = ts.
Proof.
  induction 1 as [|u t us ts Hut _ IH]; intros Hts; [reflexivity|].
  inversion Hts as [|? ? Ht Hts']; subst. cbn [map]. rewrite (IH Hts').
  f_equal. unfold slice_from. rewrite Nat2Z.id.
  destruct Hut as [->|(-> & Hb & _)].
  - now rewrite drop_spaces.
  - now apply rstrip_blank, all_chars_drop.
Qed.

Lemma min_indent_indented (n : nat) (us ts : list string) :
  Forall2 (indented n) us ts -> Z.of_nat n < maxsize ->
  (exists l, In l ts /\ l <> EmptyString /\ lstrip l = l) ->
  min_indent us = Z.of_nat n.
Proof.
  intros Hus Hn (w & Hw & Hne & Hfix). unfold min_indent.
  pose proof (indented_In _ _ _ _ Hus Hw Hne) as Hin.
  assert (Hnb : truthy (lstrip (repeat_nat " " n +++ w)) = true)
    by (rewrite lstrip_spaces, Hfix; now apply truthy_iff).
  pose proof (fold_indent_lower us maxsize _ Hin Hnb) as Hup.
  rewrite lead_spaces, (lead_fixed _ Hfix) in Hup.
  pose proof (fold_indent_ge (Z.of_nat n) us (indented_lead _ _ _ Hus)
                             maxsize) as Hlow.
  lia.
Qed.

End Reindent.

(** X3.  [doctrim] undoes an indentation.  Take lines in trimmed form,
    put [n] spaces before every line after the first (an empty line may
    instead become any run of spaces), and join them: [doctrim] gives
    back the join of the lines as they were. *)
Theorem doctrim_undoes_indent (n : nat) (t0 : string) (us ts : list string) :
  trimmed_form (t0 :: ts) ->
  Z.of_nat n < maxsize ->
  Forall2 (indented n) us ts ->
  doctrim (Some (join nl (t0 :: us))) = join nl (t0 :: ts).
Proof.
  intros (Hne & Hs & Hr & Hclean & Hpop & Hw) Hn Hus.
  assert (Ht0 : truthy t0 = true) by now apply truthy_iff.
  assert (Hcl : Forall (fun l => all_chars not_tab l = true
                                 /\ all_chars not_linebreak l = true)
                       (t0 :: us)).
  { inversion Hclean; subst. constructor; [assumption|].
    eapply indented_clean; eassumption. }
  assert (Hpop' : pop_trailing (t0 :: us) = t0 :: us).
  { rewrite (pop_trailing_keep _ _ Ht0). f_equal.
    apply (indented_pop_trailing _ _ _ Hus).
    rewrite (pop_trailing_keep _ _ Ht0) in Hpop. congruence. }
  rewrite (doctrim_text _ (join_nonempty t0 us Hne)).
  assert (Etab : expandtabs (join nl (t0 :: us)) = join nl (t0 :: us)).
  { apply expandtabs_fixed, all_chars_join; [reflexivity|].
    eapply Forall_impl; [|exact Hcl]. now intros l [H _]. }
  rewrite Etab.
  assert (Elines : splitlines (join nl (t0 :: us)) = t0 :: us).
  { apply splitlines_join; [|exact Hpop'].
    eapply Forall_impl; [|exact Hcl]. now intros l [_ H]. }
  rewrite Elines. cbn [hd tl]. rewrite Hs.
  destruct Hw as [->|Hw].
  - inversion Hus; subst.
    change (min_indent [] <? maxsize) with false. cbv iota.
    cbn [app]. rewrite Hpop. cbn [pop_leading]. now rewrite Ht0.
  - rewrite (min_indent_indented _ _ _ Hus Hn Hw).
    rewrite (proj2 (Z.ltb_lt _ _) Hn), (indented_trim _ _ _ Hus Hr).
    cbn [app]. rewrite Hpop. cbn [pop_leading]. now rewrite Ht0.
Qed.

Lemma doctrim_undoes_indent_witness :
  doctrim (Some (join nl ["Summary."; "    "; "    Usage:"; "      run"]))
  = join nl ["Summary."; EmptyString; "Usage:"; "  run"].
Proof.
  apply (doctrim_undoes_indent 4 "Summary."
           ["    "; "    Usage:"; "      run"]
           [EmptyString; "Usage:"; "  run"]).
  - cbn [trimmed_form]. repeat split; try discriminate;
      try (repeat constructor; fail).
    right. exists "Usage:". repeat split; [right; now left|discriminate].
  - unfold maxsize. lia.
  - repeat constructor.
Defined.

(** ** Unindenting a group of lines *)

Section Unindent.

Lemma lstrip_idem (s : string) : lstrip (lstrip s) = lstrip s.
Proof.
  destruct (lstrip_head s) as [->|(c & r & -> & E)]; [reflexivity|].
  cbn [lstrip]. now rewrite E.
Qed.

Lemma length_drop (n : nat) (s : string) :
  String.length (drop n s) = (String.length s - n)%nat.
Proof.
  revert s; induction n as [|n IH]; intros [|c r]; cbn [drop String.length];
    try lia. apply IH.
Qed.

(** Cutting inside the indentation leaves the text of the line. *)
Lemma lstrip_drop (s : string) :
  forall n, (n <= String.length s - String.length (lstrip s))%nat ->
            lstrip (drop n s) = lstrip s.
Proof.
  induction s as [|c r IH]; intros [|n] Hn; try reflexivity.
  cbn [lstrip String.length] in Hn |- *. cbn [drop].
  destruct (is_space c).
  - apply IH. pose proof (length_lstrip r). lia.
  - cbn [String.length] in Hn. lia.
Qed.

Lemma min_indent_nonneg (lines : list string) : 0 <= min_indent lines.
Proof. apply fold_indent_nonneg. unfold maxsize. lia. Qed.

Lemma map_slice_zero (ls : list string) : map (slice_from 0) ls = ls.
Proof. induction ls as [|l ls IH]; [reflexivity|]. cbn [map]. now rewrite IH. Qed.

Lemma drop_append (a b : string) : drop (String.length a) (a +++ b) = b.
Proof. induction a as [|c a IH]; [reflexivity|]. exact IH. Qed.

Lemma lstrip_indent (ind t : string) :
  all_chars is_space ind = true -> lstrip (ind +++ t) = lstrip t.
Proof.
  induction ind as [|c r IH]; [reflexivity|]. cbn [all_chars].
  rewrite andb_true_iff. intros [Hc Hr]. cbn [String.append lstrip].
  now rewrite Hc, IH.
Qed.

End Unindent.

(** X4.  [unindent] applied twice gives what it gives applied once; and
    when no line holds anything but white space it gives no line at all,
    dropping the lines it was given. *)
Theorem unindent_idempotent (lines : list string) :
  unindent (unindent lines) = unindent lines
  /\ (Forall (fun l => all_chars is_space l = true) lines ->
      unindent lines = []).
Proof.
  split.
  - unfold unindent at 2 3. destruct (min_indent lines <? maxsize) eqn:E;
      [|reflexivity].
    destruct (fold_indent_attained lines maxsize) as [F|(lm & Hin & Hnb & F)];
      fold (min_indent lines) in F.
    + rewrite F in E. discriminate E.
    + unfold unindent.
      assert (Hz : min_indent (map (slice_from (min_indent lines)) lines) = 0).
      { apply min_indent_zero. exists (lstrip lm). split; [|split].
        - rewrite <- (slice_lead lm), <- F.
          now apply (in_map (slice_from (min_indent lines))).
        - now apply truthy_iff.
        - apply lstrip_idem. }
      rewrite Hz. change (0 <? maxsize) with true. cbv iota.
      apply map_slice_zero.
  - intros H. unfold unindent. rewrite min_indent_blank; [reflexivity|].
    eapply Forall_impl; [|exact H]. apply lstrip_blank.
Qed.

Lemma unindent_idempotent_witness : unindent ["   "; EmptyString; " "] = [].
Proof.
  apply (proj2 (unindent_idempotent ["   "; EmptyString; " "])).
  repeat constructor.
Defined.

(** X5.  When some line holds more than white space (and is indented by
    less than [sys.maxsize]), [unindent] keeps every line and cuts the
    same number [k] of characters off each.  From a line that holds more
    than white space it cuts white space only, so the text of the line
    stays and its indentation drops by exactly [k]; and at least one such
    line ends up at column 0. *)
Theorem unindent_cuts_indentation (lines : list string) :
  min_indent lines < maxsize ->
  let k := min_indent lines in
  unindent lines = map (slice_from k) lines
  /\ List.length (unindent lines) = List.length lines
  /\ (forall l, In l lines -> truthy (lstrip l) = true ->
                lstrip (slice_from k l) = lstrip l
                /\ lead (slice_from k l) = lead l - k)
  /\ (exists l, In l lines /\ truthy (lstrip l) = true /\ lead l = k
                /\ slice_from k l = lstrip l).
Proof.
  intros Hlt k.
  assert (E : unindent lines = map (slice_from k) lines).
  { unfold unindent. now rewrite (proj2 (Z.ltb_lt _ _) Hlt). }
  split; [exact E|]. split; [rewrite E; apply length_map|]. split.
  - intros l Hin Hnb.
    pose proof (fold_indent_lower lines maxsize l Hin Hnb) as Hup.
    fold (min_indent lines) in Hup. fold k in Hup.
    pose proof (min_indent_nonneg lines) as H0. fold k in H0.
    pose proof (length_lstrip l) as Hle.
    unfold lead, len in Hup.
    assert (Hn : (Z.to_nat k
                  <= String.length l - String.length (lstrip l))%nat) by lia.
    unfold slice_from. rewrite (lstrip_drop l _ Hn). split; [reflexivity|].
    unfold lead, len. rewrite (lstrip_drop l _ Hn), length_drop. lia.
  - destruct (fold_indent_attained lines maxsize) as [F|(lm & Hin & Hnb & F)];
      fold (min_indent lines) in F; fold k in F; [lia|].
    exists lm. repeat split; auto. rewrite F. apply slice_lead.
Qed.

Lemma unindent_cuts_indentation_witness :
  let lines := ["    for x in xs:"; EmptyString; "        print(x)"] in
  let k := min_indent lines in
  unindent lines = map (slice_from k) lines
  /\ List.length (unindent lines) = List.length lines
  /\ (forall l, In l lines -> truthy (lstrip l) = true ->
                lstrip (slice_from k l) = lstrip l
                /\ lead (slice_from k l) = lead l - k)
  /\ (exists l, In l lines /\ truthy (lstrip l) = true /\ lead l = k
                /\ slice_from k l = lstrip l).
Proof.
  apply (unindent_cuts_indentation
           ["    for x in xs:"; EmptyString; "        print(x)"]).
  vm_compute. reflexivity.
Defined.

(** X6.  A transcript of prompt lines gives its code back.  Take code
    lines, put [>>> ] or [... ] before each and the same run of white
    space before that: the python block [doc_code_block] makes of them is
    the fence around the code lines as they were. *)
Theorem doctest_prompts_stripped (ind : string) (pcs : list (string * string)) :
  all_chars is_space ind = true ->
  len ind < maxsize ->
  pcs <> [] ->
  Forall (fun pc => fst pc = ">>> " \/ fst pc = "... ") pcs ->
  doc_code_block (map (fun pc => ind +++ fst pc +++ snd pc) pcs) "python"
  = ["```python"] ++ map snd pcs ++ ["```"].
Proof.
  intros Hind Hlen Hne Hp.
  set (lines := map (fun pc => ind +++ fst pc +++ snd pc) pcs).
  assert (Hstrip : forall pc, In pc pcs ->
             lstrip (fst pc +++ snd pc) = fst pc +++ snd pc
             /\ prompt_line (fst pc +++ snd pc) = true
             /\ slice_from 4 (fst pc +++ snd pc) = snd pc).
  { intros [p c] Hin. apply (proj1 (Forall_forall _ _) Hp) in Hin.
    cbn [fst snd] in *. destruct Hin as [->| ->]; repeat split. }
  assert (Hlead : forall l, In l lines ->
                            truthy (lstrip l) = true /\ lead l = len ind).
  { intros l Hl. apply in_map_iff in Hl as (pc & <- & Hin).
    destruct (Hstrip pc Hin) as (Hl & _ & _).
    unfold lead. rewrite (lstrip_indent _ _ Hind), Hl, len_append.
    split; [|lia]. destruct pc as [p c]. cbn [fst snd].
    apply (proj1 (Forall_forall _ _) Hp) in Hin. cbn [fst] in Hin.
    destruct Hin as [->| ->]; reflexivity. }
  assert (Hmin : min_indent lines = len ind).
  { assert (Hlow : len ind <= min_indent lines).
    { apply fold_indent_ge; [|lia].
      intros l Hl _. destruct (Hlead l Hl) as [_ ->]. lia. }
    destruct pcs as [|pc0 pcs']; [congruence|].
    destruct (Hlead (ind +++ fst pc0 +++ snd pc0) (or_introl eq_refl))
      as [Hnb Hl0].
    pose proof (fold_indent_lower lines maxsize _ (or_introl eq_refl) Hnb)
      as Hup.
    fold (min_indent lines) in Hup. lia. }
  assert (Hun : unindent lines = map (fun pc => fst pc +++ snd pc) pcs).
  { unfold unindent. rewrite Hmin, (proj2 (Z.ltb_lt _ _) Hlen).
    subst lines. rewrite map_map. apply map_ext. intros pc.
    unfold slice_from, len. rewrite Nat2Z.id. apply drop_append. }
  unfold doc_code_block, code_block. cbn [String.eqb Ascii.eqb Bool.eqb].
  cbv iota. rewrite doctest2md_eq, Hun.
  assert (Hall : forallb prompt_line (map (fun pc => fst pc +++ snd pc) pcs)
                 = true).
  { apply forallb_forall. intros l Hl.
    apply in_map_iff in Hl as (pc & <- & Hin). apply (Hstrip pc Hin). }
  rewrite Hall, map_map. do 2 f_equal.
  apply map_ext_in. intros pc Hin. apply (Hstrip pc Hin).
Qed.

Lemma doctest_prompts_stripped_witness :
  doc_code_block ["  >>> for x in xs:"; "  ...     print(x)"] "python"
  = ["```python"] ++ ["for x in xs:"; "    print(x)"] ++ ["```"].
Proof.
  apply (doctest_prompts_stripped "  "
           [(">>> ", "for x in xs:"); ("... ", "    print(x)")]).
  - reflexivity.
  - vm_compute. reflexivity.
  - discriminate.
  - constructor; [left; reflexivity|].
    constructor; [right; reflexivity|]. constructor.
Defined.

(** ** More on sections and the table of contents *)

(** X7.  The scanner works line by line: the headings of two runs of
    lines put together are the headings of the first run followed by the
    headings of the second, and a line that is no heading adds none. *)
Theorem sections_by_parts (xs ys : list string) :
  find_sections (xs ++ ys) = find_sections xs ++ find_sections ys
  /\ forall line,
      find_sections (xs ++ line :: ys)
      = find_sections xs ++ heading line ++ find_sections ys.
Proof.
  rewrite !find_sections_flat_map. split; [apply flat_map_app|].
  intros line. rewrite !find_sections_flat_map, flat_map_app. reflexivity.
Qed.

(** X8.  Every heading found has a depth of at least 1, so the level of a
    document is at least 1 and at most the depth of each of its headings;
    and there are never more headings than lines. *)
Theorem heading_depths (lines : list string) :
  let sections := find_sections lines in
  (forall d t, In (d, t) sections -> 1 <= d /\ toc_level sections <= d)
  /\ 1 <= toc_level sections
  /\ (List.length sections <= List.length lines)%nat.
Proof.
  intros sections.
  assert (Hpos : forall d t, In (d, t) sections -> 1 <= d).
  { intros d t H. apply find_sections_In in H as (n & Hn & -> & _). lia. }
  split; [|split].
  - intros d t H. split; [now apply (Hpos d t)|].
    assert (Hne : sections <> []) by (intros E; rewrite E in H; destruct H).
    apply (toc_level_spec _ Hne). now apply (in_map fst) in H.
  - destruct sections as [|s0 ss] eqn:E; [cbn; lia|].
    assert (Hne : s0 :: ss <> []) by discriminate.
    destruct (toc_level_spec _ Hne) as [Hin _].
    apply in_map_iff in Hin as ([d t] & Hd & Hin). cbn [fst] in Hd.
    rewrite <- Hd. now apply (Hpos d t).
  - clear Hpos. subst sections. rewrite find_sections_flat_map.
    induction lines as [|l ls IH]; [apply le_n|].
    cbn [flat_map]. rewrite length_app. cbn [List.length].
    assert (Hh : (List.length (heading l) <= 1)%nat).
    { unfold heading. destruct (reg_section_match l); [|cbn; lia].
      destruct (partition SP l) as [[? ?] ?]. cbn. lia. }
    lia.
Qed.

Lemma heading_depths_witness :
  1 <= 3 /\ toc_level (find_sections ["intro"; "## A"; "### B c"]) <= 3.
Proof.
  apply (proj1 (heading_depths ["intro"; "## A"; "### B c"]) 3 "B c").
  vm_compute. auto.
Defined.

(** X9.  In a table of contents that is not empty no item is indented by
    a negative count, and the item of a heading of the smallest depth
    starts at column 0; there is always such an item. *)
Theorem toc_flush_left (sections : list (Z * string)) :
  sections <> [] ->
  (forall d t, In (d, t) sections -> 0 <= d - toc_level sections)
  /\ exists t,
      In (toc_level sections, t) sections
      /\ In ("- [" +++ t +++ "](#" +++ toc_ref t +++ ")") (make_toc sections).
Proof.
  intros Hne. destruct (toc_level_spec _ Hne) as [Hin Hle]. split.
  - intros d t H. apply (in_map fst) in H. specialize (Hle _ H).
    cbn [fst] in Hle. lia.
  - apply in_map_iff in Hin as ([d t] & Hd & Hin). cbn [fst] in Hd. subst d.
    exists t. split; [exact Hin|]. rewrite make_toc_map.
    replace (min_list (map fst sections)) with (toc_level sections)
      by (destruct sections; [congruence|reflexivity]).
    apply (in_map (toc_item (toc_level sections))) in Hin.
    unfold toc_item in Hin at 1. cbn [fst snd] in Hin.
    now rewrite Z.sub_diag in Hin.
Qed.

Lemma toc_flush_left_witness :
  (forall d t, In (d, t) [(3, "Use"); (2, "API")]
               -> 0 <= d - toc_level [(3, "Use"); (2, "API")])
  /\ exists t,
      In (toc_level [(3, "Use"); (2, "API")], t) [(3, "Use"); (2, "API")]
      /\ In ("- [" +++ t +++ "](#" +++ toc_ref t +++ ")")
            (make_toc [(3, "Use"); (2, "API")]).
Proof.
  apply (toc_flush_left [(3, "Use"); (2, "API")]). discriminate.
Defined.

Section Anchors.



End Anchors.


(** ** More on the body of the document *)

Section Body.

Lemma flat_map_heading_none (lines : list string) :
  Forall (fun l => reg_section_match l = false) lines ->
  find_sections lines = [].
Proof.
  rewrite find_sections_flat_map.
  induction 1 as [|l ls Hl _ IH]; [reflexivity|].
  cbn [flat_map]. unfold heading at 1. now rewrite Hl, IH.
Qed.

(** An empty line ends whatever the loop is in, and leaves it outside a
    block. *)
Lemma walk_empty_line (w : walk) :
  exists c lg,
    walk_step w EmptyString = Walk (walk_end w ++ [EmptyString]) false c lg.
Proof.
  destruct w as [m [|] c lg]; unfold walk_step, walk_end;
    cbn [is_code md code language truthy lstrip startswith];
    exists c, lg; [now rewrite <- app_assoc|reflexivity].
Qed.

End Body.

(** X11.  A docstring in which no line is a heading and no line after the
    first starts a block comes out as it is: the document is the heading
    [# title], an empty line, the first line, an empty line, and the
    other lines unchanged. *)
Theorem plain_document (docstring : option string) (title : string) :
  Forall (fun l => reg_section_match l = false) (doc_lines docstring) ->
  Forall (fun l => block_language l = None) (tl (doc_lines docstring)) ->
  doc2md_lines docstring title
  = ["# " +++ title; EmptyString; hd EmptyString (doc_lines docstring);
     EmptyString] ++ tl (doc_lines docstring).
Proof.
  intros Hsec Hplain.
  rewrite doc2md_lines_parts, (flat_map_heading_none _ Hsec).
  cbn [toc_level make_toc app]. do 4 f_equal.
  rewrite <- (app_nil_r (tl (doc_lines docstring))) at 1.
  rewrite (walk_body_plain_lines _ Hplain). reflexivity.
Qed.

Lemma plain_document_witness :
  let doc := Some ("  Summary." +++ nl +++ nl +++ "    Costs $ 5 and > 3."
                   +++ nl +++ "    #no heading" +++ nl) in
  doc2md_lines doc "demo"
  = ["# " +++ "demo"; EmptyString; hd EmptyString (doc_lines doc);
     EmptyString] ++ tl (doc_lines doc).
Proof.
  apply (plain_document
           (Some ("  Summary." +++ nl +++ nl +++ "    Costs $ 5 and > 3."
                  +++ nl +++ "    #no heading" +++ nl)) "demo").
  - vm_compute. repeat constructor.
  - vm_compute. repeat constructor.
Defined.

(** X12.  An empty line separates the body into parts that are rendered
    on their own: the rendering of lines, an empty line and more lines is
    the rendering of the first lines (with a block open at their end
    closed), the empty line, and the rendering of the lines after it. *)
Theorem body_by_paragraphs (md0 xs ys : list string) :
  walk_body md0 (xs ++ EmptyString :: ys)
  = walk_body (walk_body md0 xs ++ [EmptyString]) ys
  /\ walk_body [] (xs ++ EmptyString :: ys)
     = walk_body [] xs ++ EmptyString :: walk_body [] ys.
Proof.
  assert (G : forall m,
             walk_body m (xs ++ EmptyString :: ys)
             = walk_body (walk_body m xs ++ [EmptyString]) ys).
  { intros m. unfold walk_body at 1 3. rewrite fold_left_app.
    cbn [fold_left].
    destruct (walk_empty_line
                (fold_left walk_step xs (Walk m false [] EmptyString)))
      as (c & lg & ->).
    apply walk_stale. }
  split; [apply G|].
  rewrite G, walk_body_from, <- app_assoc. reflexivity.
Qed.

(** ** The title the script takes *)

Section Title.

Lemma endswith_append (base suffix : string) :
  endswith suffix (base +++ suffix) = true.
Proof.
  unfold endswith. rewrite length_append.
  replace (String.length base + String.length suffix
           - String.length suffix)%nat with (String.length base) by lia.
  rewrite drop_append, String.eqb_refl, andb_true_r.
  apply Nat.leb_le. lia.
Qed.

Lemma rpartition_py (base : string) :
  rpartition ".py" (base +++ ".py") = Some (base, EmptyString).
Proof.
  induction base as [|c r IH]; [reflexivity|].
  cbn [String.append rpartition]. now rewrite IH.
Qed.

End Title.

(** X13.  The title of the document.  A title given with [--title] that
    is not empty is taken as it is.  Without one (or with an empty one)
    the title is the module argument, with a final [.py] taken off once
    if it has one, and with every underscore turned into a hyphen. *)
Theorem script_title (module given : string) :
  (given <> EmptyString -> main_title (Some given) module = given)
  /\ main_title None (module +++ ".py") = replace "_" "-" module
  /\ main_title (Some EmptyString) (module +++ ".py") = replace "_" "-" module
  /\ (endswith ".py" module = false ->
      main_title None module = replace "_" "-" module).
Proof.
  split; [|split; [|split]].
  - destruct given; [congruence|reflexivity].
  - unfold main_title, rsplit1. now rewrite endswith_append, rpartition_py.
  - unfold main_title, rsplit1. now rewrite endswith_append, rpartition_py.
  - intros H. unfold main_title. now rewrite H.
Qed.

Lemma script_title_witness :
  main_title (Some "My Tool") "my_tool.py" = "My Tool"
  /\ main_title None "my_tool.pyc" = replace "_" "-" "my_tool.pyc".
Proof.
  split.
  - apply (proj1 (script_title "my_tool.py" "My Tool")). discriminate.
  - apply (proj2 (proj2 (proj2 (script_title "my_tool.pyc" "My Tool")))).
    reflexivity.
Defined.

(** ** What the loop hands to the formatter *)

Section Invariant.

Lemma block_language_nonempty (line lang : string) :
  block_language line = Some lang -> line <> EmptyString.
Proof. intros H ->. discriminate H. Qed.

Lemma block_ok_step (w : walk) (line : string) :
  block_ok w -> block_ok (walk_step w line).
Proof.
  unfold block_ok. destruct w as [m [|] c lg]; cbn [is_code code language].
  - intros H. specialize (H eq_refl) as [H1 H2].
    unfold walk_step; cbn [is_code md code language].
    destruct (truthy line) eqn:E; cbn [is_code code language];
      [intros _|discriminate].
    split.
    + destruct c as [|c0 c']; [discriminate H1|exact H1].
    + apply Forall_app. split; [exact H2|].
      constructor; [now apply truthy_iff|constructor].
  - intros _. destruct (block_language line) as [lang|] eqn:E.
    + rewrite (walk_step_start (Walk m false c lg) _ _ eq_refl E).
      cbn [is_code code language hd]. intros _. split; [exact E|].
      constructor; [|constructor]. eapply block_language_nonempty, E.
    + rewrite (walk_step_plain (Walk m false c lg) _ eq_refl E).
      cbn [is_code]. discriminate.
Qed.

Lemma block_ok_fold (lines : list string) (w : walk) :
  block_ok w -> block_ok (fold_left walk_step lines w).
Proof.
  revert w; induction lines as [|l ls IH]; intros w H; [exact H|].
  cbn [fold_left]. now apply IH, block_ok_step.
Qed.

End Invariant.

(** X14.  Whatever lines the loop of [doc2md] has read, while a block is
    open the lines collected for it start with the line that opened the
    block, none of them is empty, and the language is [python] or [bash]
    as that first line says: [doc_code_block] is never called with an
    empty block, an empty line or another language. *)
Theorem open_block_invariant (md0 lines : list string) :
  let w := fold_left walk_step lines (Walk md0 false [] EmptyString) in
  is_code w = true ->
  block_language (hd EmptyString (code w)) = Some (language w)
  /\ code w <> []
  /\ Forall (fun l => l <> EmptyString) (code w)
  /\ (language w = "python" \/ language w = "bash").
Proof.
  intros w Hw.
  assert (H : is_code w = true ->
              block_language (hd EmptyString (code w)) = Some (language w)
              /\ Forall (fun l => l <> EmptyString) (code w)).
  { apply (block_ok_fold lines (Walk md0 false [] EmptyString)).
    unfold block_ok. cbn [is_code]. discriminate. }
  destruct (H Hw) as [H1 H2]. repeat split; auto.
  - intros E. rewrite E in H1. discriminate H1.
  - unfold block_language in H1.
    destruct (startswith ">>> " _); [left; congruence|].
    destruct (startswith "$ " _); [right; congruence|discriminate H1].
Qed.

Lemma open_block_invariant_witness :
  let w := fold_left walk_step ["text"; "  $ ls"; "out"]
                     (Walk [] false [] EmptyString) in
  block_language (hd EmptyString (code w)) = Some (language w)
  /\ code w <> []
  /\ Forall (fun l => l <> EmptyString) (code w)
  /\ (language w = "python" \/ language w = "bash").
Proof.
  apply (open_block_invariant [] ["text"; "  $ ls"; "out"]). reflexivity.
Defined.

(** X15.  A formatted block has two lines more than the lines given, for
    every language, as long as one of the lines holds more than white
    space (and is indented by less than [sys.maxsize]); a python block of
    white space only is an empty fence. *)
Theorem block_line_count (lines : list string) (lang : string) :
  (min_indent lines < maxsize ->
   List.length (doc_code_block lines lang) = (List.length lines + 2)%nat)
  /\ (Forall (fun l => all_chars is_space l = true) lines ->
      doc_code_block lines "python" = ["```python"; "```"]).
Proof.
  split.
  - intros Hlt. unfold doc_code_block, code_block.
    rewrite !length_app. cbn [List.length].
    destruct (String.eqb lang "python"); [|lia].
    rewrite doctest2md_eq. unfold unindent.
    rewrite (proj2 (Z.ltb_lt _ _) Hlt).
    destruct (forallb _ _); rewrite ?length_map; lia.
  - intros H. unfold doc_code_block, code_block.
    cbn [String.eqb Ascii.eqb Bool.eqb]. cbv iota.
    rewrite doctest2md_eq. unfold unindent.
    rewrite min_indent_blank; [reflexivity|].
    eapply Forall_impl; [|exact H]. apply lstrip_blank.
Qed.

Lemma block_line_count_witness :
  List.length (doc_code_block ["  >>> 1 + 1"; "  2"] "python")
  = (List.length ["  >>> 1 + 1"; "  2"] + 2)%nat
  /\ doc_code_block ["  "; EmptyString] "python" = ["```python"; "```"].
Proof.
  split.
  - apply (proj1 (block_line_count ["  >>> 1 + 1"; "  2"] "python")).
    vm_compute. reflexivity.
  - apply (proj2 (block_line_count ["  "; EmptyString] "python")).
    repeat constructor.
Defined.
